(** * SteamKM: the self-update workflow and the configuration loader

    A shallow embedding of [SteamKM_Updater.py] and [SteamKM_Config.py].

    - Python values keep their shape: [str] is [string] (code points below
      256), [int] is [Z] or [N], [float] is a binary64 [float], a file is a
      list of bytes, the filesystem is a finite map from paths to files.
    - Effects are explicit: a computation threads the filesystem, the clock
      and the trace of what it did (requests, file operations, signals, log
      lines), and ends in a value or in a raised exception.
    - What the two modules import and the repository does not define is
      either embedded or a parameter: [packaging.version], which
      [check_for_updates] calls to order two version strings, is embedded
      in [Module PackagingVersion]; [CURRENT_BUILD] (of [SteamKM_Version]),
      the answers of the release service and [json.loads] are parameters.
      Of [UpdateDialog], the texts of the version list are embedded; the
      Qt widgets of [UpdateManager] and [UpdateDialog] are left out.
    - Three idealisations of the runtime: the answer of the release
      service is a JSON object of the documented shape; the operating
      system refuses a file operation only for a missing source or, on
      Windows, an existing destination; [int -> float] rounds and has no
      [OverflowError], as for byte counts below 2^1024. *)

From Stdlib Require Import String Ascii NArith ZArith List Bool Lia Floats Sorted.
From Stdlib Require Import DecimalString.
From Stdlib Require Uint63.
From stdpp Require Import base gmap strings.
Import ListNotations.

Local Open Scope string_scope.
Local Open Scope list_scope.

(** ** Python's rich comparison, as far as the version keys use it *)

(** [py_eq] is [==] and [py_gt] is [>] on one Python type. A tuple compares
    by the first position at which the two operands are not [==]; only
    there is [>] asked. *)
Class PyCmp (A : Type) := {
  py_eq : A -> A -> bool;
  py_gt : A -> A -> bool
}.

(** What makes [>] an order: [==] decides equality and, on operands that
    are not [==], [>] is connected, asymmetric and transitive. Nothing is
    required of [x > x]: a tuple comparison never asks it. *)
Class PyCmpLaws (A : Type) `{PyCmp A} := {
  py_eq_iff : forall x y : A, py_eq x y = true <-> x = y;
  py_gt_flip : forall x y : A, x <> y -> py_gt x y = negb (py_gt y x);
  py_gt_trans : forall x y z : A,
    x <> y -> y <> z -> x <> z ->
    py_gt x y = true -> py_gt y z = true -> py_gt x z = true
}.

(** [int] *)
#[export] Instance PyCmp_int : PyCmp N := {|
  py_eq := N.eqb;
  py_gt := fun x y => N.ltb y x
|}.

(** One character of a [str] compares by its code point. *)
#[export] Instance PyCmp_char : PyCmp ascii := {|
  py_eq := fun c d => N.eqb (N_of_ascii c) (N_of_ascii d);
  py_gt := fun c d => N.ltb (N_of_ascii d) (N_of_ascii c)
|}.

(** [str]: code point by code point, a proper prefix is smaller. *)
Fixpoint str_eq (s t : string) : bool :=
  match s, t with
  | EmptyString, EmptyString => true
  | String c s', String d t' => py_eq c d && str_eq s' t'
  | _, _ => false
  end.

Fixpoint str_gt (s t : string) : bool :=
  match s, t with
  | String c s', String d t' => if py_eq c d then str_gt s' t' else py_gt c d
  | String _ _, EmptyString => true
  | EmptyString, _ => false
  end.

#[export] Instance PyCmp_str : PyCmp string := {|
  py_eq := str_eq;
  py_gt := str_gt
|}.

(** A tuple of fixed length two. *)
#[export] Instance PyCmp_pair {A B} `{PyCmp A} `{PyCmp B} : PyCmp (A * B) := {|
  py_eq := fun p q => py_eq (fst p) (fst q) && py_eq (snd p) (snd q);
  py_gt := fun p q =>
    if py_eq (fst p) (fst q)
    then (if py_eq (snd p) (snd q) then false else py_gt (snd p) (snd q))
    else py_gt (fst p) (fst q)
|}.

(** A tuple of any length, all items of one type. *)
Fixpoint tuple_eq {A} `{PyCmp A} (v w : list A) : bool :=
  match v, w with
  | [], [] => true
  | x :: v', y :: w' => py_eq x y && tuple_eq v' w'
  | _, _ => false
  end.

Fixpoint tuple_gt {A} `{PyCmp A} (v w : list A) : bool :=
  match v, w with
  | x :: v', y :: w' => if py_eq x y then tuple_gt v' w' else py_gt x y
  | _ :: _, [] => true
  | [], _ => false
  end.

#[export] Instance PyCmp_tuple {A} `{PyCmp A} : PyCmp (list A) := {|
  py_eq := tuple_eq;
  py_gt := tuple_gt
|}.

(** [packaging._structures]: a value, or one of the two sentinels
    [Infinity] and [NegativeInfinity]. [Infinity.__gt__] answers [True] to
    everything and [NegativeInfinity.__gt__] answers [False]; a value on
    the left of a sentinel defers to the sentinel's reflected [__lt__]. *)
Inductive with_inf (A : Type) : Type :=
| NegativeInfinity
| Val (a : A)
| Infinity.
Arguments NegativeInfinity {A}.
Arguments Val {A} a.
Arguments Infinity {A}.

#[export] Instance PyCmp_with_inf {A} `{PyCmp A} : PyCmp (with_inf A) := {|
  py_eq := fun x y =>
    match x, y with
    | Infinity, Infinity => true
    | NegativeInfinity, NegativeInfinity => true
    | Val a, Val b => py_eq a b
    | _, _ => false
    end;
  py_gt := fun x y =>
    match x, y with
    | Infinity, _ => true
    | NegativeInfinity, _ => false
    | Val _, Infinity => false
    | Val _, NegativeInfinity => true
    | Val a, Val b => py_gt a b
    end
|}.

(** ** packaging.version: [parse], [Version] and its comparison key

    The library as of its release 22 and later. [Version(version)] raises
    [InvalidVersion] on a string that is no PEP 440 version, and lets
    through the [ValueError] that CPython's [int] raises on more than
    4300 digits; [parse] gives [None] in both cases. *)

Module PackagingVersion.

(** *** The characters the pattern tells apart *)

Definition code (c : ascii) : N := N_of_ascii c.

(** [[0-9]] *)
Definition is_digit (c : ascii) : bool :=
  (48 <=? code c)%N && (code c <=? 57)%N.

(** [\s] on a [str]: the code points below 256 that count as whitespace. *)
Definition is_space (c : ascii) : bool :=
  let n := code c in
  ((9 <=? n)%N && (n <=? 13)%N) || ((28 <=? n)%N && (n <=? 32)%N)
  || (n =? 133)%N || (n =? 160)%N.

(** [[-_\.]] *)
Definition is_separator (c : ascii) : bool :=
  (code c =? 45)%N || (code c =? 95)%N || (code c =? 46)%N.

(** [str.lower] on the letters the pattern can match. *)
Definition lower_char (c : ascii) : ascii :=
  if (65 <=? code c)%N && (code c <=? 90)%N
  then ascii_of_N (code c + 32) else c.

Fixpoint lower (s : string) : string :=
  match s with
  | EmptyString => EmptyString
  | String c s' => String (lower_char c) (lower s')
  end.

(** [[a-z0-9]] under [re.IGNORECASE] *)
Definition is_alnum (c : ascii) : bool :=
  is_digit c ||
  ((97 <=? code (lower_char c))%N && (code (lower_char c) <=? 122)%N).

Definition is_empty (s : string) : bool :=
  match s with EmptyString => true | String _ _ => false end.

(** [int(s)] on a run of decimal digits; [Version] below calls it on the
    runs that [int] accepts, of at most 4300 digits. *)
Definition digit_value (c : ascii) : N := (code c - 48)%N.

Fixpoint int_from (acc : N) (s : string) : N :=
  match s with
  | EmptyString => acc
  | String c s' => int_from (acc * 10 + digit_value c) s'
  end.

Definition int (s : string) : N := int_from 0 s.

(** [s.split(sep)] for a one-character separator. *)
Fixpoint split (sep : ascii -> bool) (s : string) : list string :=
  match s with
  | EmptyString => [EmptyString]
  | String c s' =>
      if sep c then EmptyString :: split sep s'
      else match split sep s' with
           | p :: ps => String c p :: ps
           | [] => [String c EmptyString]
           end
  end.

(** [str.isdigit] on text the pattern matched as [[a-z0-9]+]. *)
Fixpoint all_digits (s : string) : bool :=
  match s with
  | EmptyString => true
  | String c s' => is_digit c && all_digits s'
  end.

Definition isdigit (s : string) : bool := negb (is_empty s) && all_digits s.

(** *** Matching the pieces of [VERSION_PATTERN]

    Each matcher takes the text still to read and gives what it matched and
    the text after it. Quantifiers are greedy, alternatives are tried left
    to right, and an optional group that cannot match is skipped. *)

(** [\s*] *)
Fixpoint skip_spaces (s : string) : string :=
  match s with
  | String c s' => if is_space c then skip_spaces s' else s
  | EmptyString => s
  end.

(** [[0-9]*]: the digits and the rest. *)
Fixpoint span_digits (s : string) : string * string :=
  match s with
  | String c s' =>
      if is_digit c
      then let (ds, rest) := span_digits s' in (String c ds, rest)
      else (EmptyString, s)
  | EmptyString => (EmptyString, EmptyString)
  end.

(** A literal word under [re.IGNORECASE]: the text matched and the rest. *)
Fixpoint match_word (w : string) (s : string) : option (string * string) :=
  match w with
  | EmptyString => Some (EmptyString, s)
  | String wc w' =>
      match s with
      | String c s' =>
          if Ascii.eqb (lower_char c) wc
          then match match_word w' s' with
               | Some (m, rest) => Some (String c m, rest)
               | None => None
               end
          else None
      | EmptyString => None
      end
  end.

(** An alternation of words, the first that matches. *)
Fixpoint match_words (ws : list string) (s : string) : option (string * string) :=
  match ws with
  | [] => None
  | w :: ws' =>
      match match_word w s with
      | Some r => Some r
      | None => match_words ws' s
      end
  end.

(** [[-_\.]?] *)
Definition skip_separator (s : string) : string :=
  match s with
  | String c s' => if is_separator c then s' else s
  | EmptyString => s
  end.

(** [v?] *)
Definition skip_v (s : string) : string :=
  match s with
  | String c s' => if Ascii.eqb (lower_char c) "v"%char then s' else s
  | EmptyString => s
  end.

(** [(?:(?P<epoch>[0-9]+)!)?]: the epoch digits when a [!] follows them. *)
Definition match_epoch (s : string) : option string * string :=
  let (ds, rest) := span_digits s in
  match rest with
  | String c rest' =>
      if Ascii.eqb c "!"%char && negb (is_empty ds) then (Some ds, rest') else (None, s)
  | EmptyString => (None, s)
  end.

(** [[0-9]*(?:\.[0-9]+)*]: what follows the first digit of the release. *)
Fixpoint match_release_tail (s : string) : string * string :=
  match s with
  | String c s' =>
      if is_digit c
      then let (m, rest) := match_release_tail s' in (String c m, rest)
      else if Ascii.eqb c "."%char
      then match s' with
           | String d _ =>
               if is_digit d
               then let (m, rest) := match_release_tail s' in (String c m, rest)
               else (EmptyString, s)
           | EmptyString => (EmptyString, s)
           end
      else (EmptyString, s)
  | EmptyString => (EmptyString, EmptyString)
  end.

(** The group [release]: [[0-9]+] then any number of [\.[0-9]+]. *)
Definition match_release (s : string) : option (string * string) :=
  match s with
  | String c s' =>
      if is_digit c
      then let (m, rest) := match_release_tail s' in Some (String c m, rest)
      else None
  | EmptyString => None
  end.

(** [(?P<n>[0-9]+)?] *)
Definition match_number (s : string) : option string * string :=
  let (ds, rest) := span_digits s in
  if is_empty ds then (None, s) else (Some ds, rest).

(** [(?P<l>w1|w2|...)[-_\.]?(?P<n>[0-9]+)?] *)
Definition match_letter_number (ws : list string) (s : string)
  : option (string * option string * string) :=
  match match_words ws s with
  | Some (l, rest) =>
      let (n, rest') := match_number (skip_separator rest) in
      Some (l, n, rest')
  | None => None
  end.

(** [[-_\.]?(?P<l>...)[-_\.]?(?P<n>[0-9]+)?]: with the separator first,
    and without it when that fails. *)
Definition match_segment (ws : list string) (s : string)
  : option (string * option string * string) :=
  match match_letter_number ws (skip_separator s) with
  | Some r => Some r
  | None => match_letter_number ws s
  end.

Definition pre_letters : list string :=
  ["alpha"; "a"; "beta"; "b"; "preview"; "pre"; "c"; "rc"].
Definition post_letters : list string := ["post"; "rev"; "r"].
Definition dev_letters : list string := ["dev"].

(** [(?:-(?P<post_n1>[0-9]+))] *)
Definition match_post_n1 (s : string) : option (string * string) :=
  match s with
  | String c s' =>
      if Ascii.eqb c "-"%char
      then match match_number s' with
           | (Some ds, rest) => Some (ds, rest)
           | (None, _) => None
           end
      else None
  | EmptyString => None
  end.

(** [[a-z0-9]*(?:[-_\.][a-z0-9]+)*]: what follows the first character of
    the local version. *)
Fixpoint match_local_tail (s : string) : string * string :=
  match s with
  | String c s' =>
      if is_alnum c
      then let (m, rest) := match_local_tail s' in (String c m, rest)
      else if is_separator c
      then match s' with
           | String d _ =>
               if is_alnum d
               then let (m, rest) := match_local_tail s' in (String c m, rest)
               else (EmptyString, s)
           | EmptyString => (EmptyString, s)
           end
      else (EmptyString, s)
  | EmptyString => (EmptyString, EmptyString)
  end.

(** The optional group [local] after a [+]: [[a-z0-9]+] then any number
    of [[-_\.][a-z0-9]+]. *)
Definition match_local (s : string) : option string * string :=
  match s with
  | String c (String d s') =>
      if Ascii.eqb c "+"%char && is_alnum d
      then let (m, rest) := match_local_tail s' in (Some (String d m), rest)
      else (None, s)
  | _ => (None, s)
  end.

(** The groups of a successful match. *)
Record groups := {
  g_epoch : option string;
  g_release : string;
  g_pre_l : option string;
  g_pre_n : option string;
  g_post_n1 : option string;
  g_post_l : option string;
  g_post_n2 : option string;
  g_dev_l : option string;
  g_dev_n : option string;
  g_local : option string
}.

(** [_regex.search(version)] with
    [_regex = ^\s* VERSION_PATTERN \s*$], [re.VERBOSE | re.IGNORECASE]. *)
Definition regex_search (version : string) : option groups :=
  let s := skip_v (skip_spaces version) in
  let (epoch, s) := match_epoch s in
  match match_release s with
  | None => None
  | Some (release, s) =>
      let '(pre_l, pre_n, s) :=
        match match_segment pre_letters s with
        | Some (l, n, rest) => (Some l, n, rest)
        | None => (None, None, s)
        end in
      let '(post_n1, post_l, post_n2, s) :=
        match match_post_n1 s with
        | Some (n1, rest) => (Some n1, None, None, rest)
        | None =>
            match match_segment post_letters s with
            | Some (l, n, rest) => (None, Some l, n, rest)
            | None => (None, None, None, s)
            end
        end in
      let '(dev_l, dev_n, s) :=
        match match_segment dev_letters s with
        | Some (l, n, rest) => (Some l, n, rest)
        | None => (None, None, s)
        end in
      let (local, s) := match_local s in
      if is_empty (skip_spaces s)
      then Some {| g_epoch := epoch; g_release := release;
                   g_pre_l := pre_l; g_pre_n := pre_n;
                   g_post_n1 := post_n1; g_post_l := post_l; g_post_n2 := post_n2;
                   g_dev_l := dev_l; g_dev_n := dev_n; g_local := local |}
      else None
  end.

(** *** From the groups to a [Version] *)

(** One part of a local version: an [int], or a lowercased [str]. *)
Inductive local_part : Type :=
| LocalInt (n : N)
| LocalStr (s : string).

(** The named tuple [_Version]. *)
Record _Version := {
  epoch : N;
  release : list N;
  dev : option (string * N);
  pre : option (string * N);
  post : option (string * N);
  local : option (list local_part)
}.

Definition truthy (o : option string) : bool :=
  match o with
  | Some s => negb (is_empty s)
  | None => false
  end.

(** [_parse_letter_version(letter, number)] *)
Definition _parse_letter_version (letter number : option string)
  : option (string * N) :=
  if truthy letter then
    let number := match number with None => 0%N | Some n => int n end in
    let letter := lower (default EmptyString letter) in
    let letter :=
      if String.eqb letter "alpha" then "a"
      else if String.eqb letter "beta" then "b"
      else if String.eqb letter "c" || String.eqb letter "pre"
              || String.eqb letter "preview" then "rc"
      else if String.eqb letter "rev" || String.eqb letter "r" then "post"
      else letter in
    Some (letter, number)
  else if truthy number then
    Some ("post", int (default EmptyString number))
  else None.

(** [_parse_local_version(local)] *)
Definition _parse_local_version (local : option string)
  : option (list local_part) :=
  match local with
  | Some l =>
      Some (map (fun part => if negb (isdigit part)
                             then LocalStr (lower part)
                             else LocalInt (int part))
                (split is_separator l))
  | None => None
  end.

(** [a or b] on two optional strings. *)
Definition py_or (a b : option string) : option string :=
  if truthy a then a else b.

(** [sys.int_info.default_max_str_digits]: [int(s)] raises [ValueError]
    on a string of more digits, leading zeros counted. *)
Definition max_str_digits : N := 4300.

Definition int_refuses (s : string) : bool :=
  (max_str_digits <? N.of_nat (String.length s))%N.

(** The string [_parse_letter_version(letter, number)] passes to [int],
    if any. *)
Definition letter_number_argument (letter number : option string) : list string :=
  if truthy letter then
    match number with None => [] | Some n => [n] end
  else if truthy number then [default EmptyString number]
  else [].

(** The strings [Version.__init__] passes to [int], in the order it does:
    the epoch, the segments of the release, the numbers of the pre-, post-
    and development release, the numeric parts of the local version. *)
Definition int_arguments (m : groups) : list string :=
  (if truthy (g_epoch m) then [default EmptyString (g_epoch m)] else []) ++
  split (Ascii.eqb ".") (g_release m) ++
  letter_number_argument (g_pre_l m) (g_pre_n m) ++
  letter_number_argument (g_post_l m) (py_or (g_post_n1 m) (g_post_n2 m)) ++
  letter_number_argument (g_dev_l m) (g_dev_n m) ++
  match g_local m with
  | Some l => List.filter isdigit (split is_separator l)
  | None => []
  end.

(** What [Version(version)] comes to: the version, [InvalidVersion], or
    the [ValueError] of [int] on a string of [digits] digits. *)
Inductive construction : Type :=
| Parsed (v : _Version)
| NotAVersion
| IntTooLong (digits : N).

(** [Version.__init__] *)
Definition Version (version : string) : construction :=
  match regex_search version with
  | None => NotAVersion
  | Some m =>
      match List.find int_refuses (int_arguments m) with
      | Some s => IntTooLong (N.of_nat (String.length s))
      | None =>
          Parsed {|
            epoch := if truthy (g_epoch m)
                     then int (default EmptyString (g_epoch m)) else 0%N;
            release := map int (split (Ascii.eqb ".") (g_release m));
            pre := _parse_letter_version (g_pre_l m) (g_pre_n m);
            post := _parse_letter_version (g_post_l m)
                      (py_or (g_post_n1 m) (g_post_n2 m));
            dev := _parse_letter_version (g_dev_l m) (g_dev_n m);
            local := _parse_local_version (g_local m)
          |}
      end
  end.

(** [parse(version)] where it returns: [None] when [Version(version)]
    raises. *)
Definition parse (version : string) : option _Version :=
  match Version version with
  | Parsed v => Some v
  | NotAVersion | IntTooLong _ => None
  end.

(** *** The comparison key *)

Definition CmpPrePostDev : Type := with_inf (string * N).
Definition CmpLocal : Type := with_inf (list (with_inf N * string)).
Definition CmpKey : Type :=
  (N * list N * CmpPrePostDev * CmpPrePostDev * CmpPrePostDev * CmpLocal)%type.

(** [itertools.dropwhile(pred, xs)] *)
Fixpoint dropwhile {A} (p : A -> bool) (xs : list A) : list A :=
  match xs with
  | x :: xs' => if p x then dropwhile p xs' else xs
  | [] => []
  end.

(** The release with its trailing zeros removed. *)
Definition strip_trailing_zeros (release : list N) : list N :=
  rev (dropwhile (fun x => N.eqb x 0) (rev release)).

(** [_cmpkey(epoch, release, pre, post, dev, local)] *)
Definition _cmpkey (epoch : N) (release : list N)
    (pre post dev : option (string * N)) (local : option (list local_part))
  : CmpKey :=
  let _release := strip_trailing_zeros release in
  let _pre : CmpPrePostDev :=
    match pre, post, dev with
    | None, None, Some _ => NegativeInfinity
    | None, _, _ => Infinity
    | Some p, _, _ => Val p
    end in
  let _post : CmpPrePostDev :=
    match post with None => NegativeInfinity | Some p => Val p end in
  let _dev : CmpPrePostDev :=
    match dev with None => Infinity | Some d => Val d end in
  let _local : CmpLocal :=
    match local with
    | None => NegativeInfinity
    | Some parts =>
        Val (map (fun i => match i with
                           | LocalInt n => (Val n, EmptyString)
                           | LocalStr s => (NegativeInfinity, s)
                           end) parts)
    end in
  (epoch, _release, _pre, _post, _dev, _local).

(** [Version._key] *)
Definition _key (v : _Version) : CmpKey :=
  _cmpkey (epoch v) (release v) (pre v) (post v) (dev v) (local v).

(** [_BaseVersion.__gt__] and [__eq__]: the keys compared as tuples. *)
Definition version_gt (v w : _Version) : bool := py_gt (_key v) (_key w).
Definition version_eq (v w : _Version) : bool := py_eq (_key v) (_key w).

End PackagingVersion.

(** ** The Python the updater runs on: exceptions, files, requests *)

(** [bytes]: the content of a file, or one chunk of a response. *)
Abbreviation bytes := (list Byte.byte).

(** The exception classes the two modules raise, catch or let through. *)
Inductive exn : Type :=
| RequestException (msg : string)   (* requests.exceptions.RequestException *)
| InvalidVersion (version : string) (* packaging.version.InvalidVersion *)
| JSONDecodeError (msg : string)    (* json.JSONDecodeError *)
| UnicodeDecodeError (msg : string) (* bytes that are no text in the encoding *)
| PermissionError (path : string)   (* OSError, errno EACCES *)
| FileNotFoundError (path : string) (* OSError, errno ENOENT *)
| FileExistsError (path : string)   (* OSError, errno EEXIST *)
| ValueError (msg : string)         (* ValueError *)
| Exception (msg : string).         (* a plain Exception(msg) *)

(** [str(e)] *)
Definition str_exn (e : exn) : string :=
  match e with
  | RequestException msg => msg
  | InvalidVersion version => "Invalid version: '" +:+ version +:+ "'"
  | JSONDecodeError msg => msg
  | UnicodeDecodeError msg => msg
  | PermissionError path => "[Errno 13] Permission denied: '" +:+ path +:+ "'"
  | FileNotFoundError path => "[Errno 2] No such file or directory: '" +:+ path +:+ "'"
  | FileExistsError path => "[Errno 17] File exists: '" +:+ path +:+ "'"
  | ValueError msg => msg
  | Exception msg => msg
  end.

(** [isinstance(e, requests.exceptions.RequestException)] *)
Definition is_RequestException (e : exn) : bool :=
  match e with RequestException _ => true | _ => false end.

(** [isinstance(e, (RequestException, InvalidVersion))] *)
Definition is_RequestException_or_InvalidVersion (e : exn) : bool :=
  match e with RequestException _ | InvalidVersion _ => true | _ => false end.

(** One asset of a release, with the keys the updater reads by [.get]:
    a missing key is [None]. *)
Record asset := {
  name : option string;
  browser_download_url : option string;
  size : option Z
}.

(** The JSON object of one release. *)
Record release_json := {
  tag_name : option string;
  assets : option (list asset)
}.

(** The body of a streamed response as [iter_content] yields it: the
    chunks, then possibly a failure of the connection, with the message of
    the [RequestException] it raises. *)
Record stream := {
  chunks : list bytes;
  broken : option string
}.

(** [os.rename] onto an existing file replaces it on POSIX and raises on
    Windows. *)
Inductive platform : Type := Posix | Windows.

(** What the program is run in. [api] answers
    [requests.get(url).raise_for_status()] followed by [.json()];
    [download] answers [requests.get(url, stream=True)] followed by
    [raise_for_status()]; either gives the response, or the message of the
    [RequestException] raised. [clock n] is the [n]-th reading of
    [time()]. *)
Record environment := {
  os : platform;
  sys_executable : string;   (* os.path.realpath(sys.executable) *)
  GITHUB_TOKEN : option string;
  api : string -> string + release_json;
  download : option string -> string + stream;
  clock : nat -> float
}.

Inductive log_level : Type := DEBUG | INFO | ERROR.

(** The Qt signals of the two worker threads. *)
Inductive signal : Type :=
| update_available (available : bool)
| progress_signal (downloaded total : Z) (estimated_time : float)
| finished_signal (success : bool)
| error_signal (msg : string).

(** What a run does to the outside, in order. *)
Inductive event : Type :=
| Requests_get (url : option string) (headers : list (string * string)) (streamed : bool)
| Logging (level : log_level) (msg : string)
| QMessageBox_critical (title text : string)
| File_open_wb (path : string)
| File_write (path : string) (chunk : bytes)
| Os_remove (path : string)
| Os_rename (src dst : string)
| Emit (s : signal).

(** The state a run threads: the files, the number of clock readings
    taken, and the events so far. *)
Record world := {
  fs : gmap string bytes;
  ticks : nat;
  trace : list event
}.

(** A computation: from a world to a value or a raised exception, and the
    world it leaves. *)
Definition M (A : Type) : Type := world -> (exn + A) * world.

Definition ret {A} (a : A) : M A := fun w => (inr a, w).

Definition raise {A} (e : exn) : M A := fun w => (inl e, w).

Definition bind {A B} (m : M A) (k : A -> M B) : M B :=
  fun w =>
    match m w with
    | (inr a, w') => k a w'
    | (inl e, w') => (inl e, w')
    end.

Notation "'let*' x ':=' m 'in' k" := (bind m (fun x => k))
  (at level 10, x name, m at level 100, k at level 200).
Notation "m ;; k" := (bind m (fun _ => k))
  (at level 100, k at level 200, right associativity).

(** [try: m  except C1 as e: h1 e  except C2 as e: h2 e ...]: the first
    clause whose classes the exception belongs to handles it; what a
    handler raises is not handled again. *)
Fixpoint handle {A} (clauses : list ((exn -> bool) * (exn -> M A))) (e : exn) : M A :=
  match clauses with
  | [] => raise e
  | (caught, handler) :: rest => if caught e then handler e else handle rest e
  end.

Definition try_except {A} (m : M A) (clauses : list ((exn -> bool) * (exn -> M A))) : M A :=
  fun w =>
    match m w with
    | (inl e, w') => handle clauses e w'
    | r => r
    end.

(** [isinstance(e, Exception)] *)
Definition is_Exception (e : exn) : bool := true.

Definition emit_event (ev : event) : M unit :=
  fun w => (inr tt, {| fs := fs w; ticks := ticks w; trace := trace w ++ [ev] |}).

Definition set_fs (f : gmap string bytes) : M unit :=
  fun w => (inr tt, {| fs := f; ticks := ticks w; trace := trace w |}).

Definition get_fs : M (gmap string bytes) := fun w => (inr (fs w), w).

Definition logging (level : log_level) (msg : string) : M unit :=
  emit_event (Logging level msg).

(** [open(path, 'wb')]: the file is created, or emptied. *)
Definition open_wb (path : string) : M unit :=
  emit_event (File_open_wb path) ;;
  let* f := get_fs in
  set_fs (<[path := []]> f).

(** [f.write(chunk)] on the file opened at [path]. *)
Definition file_write (path : string) (chunk : bytes) : M unit :=
  emit_event (File_write path chunk) ;;
  let* f := get_fs in
  set_fs (<[path := default [] (f !! path) ++ chunk]> f).

(** [os.path.exists(path)] *)
Definition os_path_exists (path : string) : M bool :=
  let* f := get_fs in
  ret (bool_decide (is_Some (f !! path))).

(** [os.remove(path)] *)
Definition os_remove (path : string) : M unit :=
  emit_event (Os_remove path) ;;
  let* f := get_fs in
  match f !! path with
  | Some _ => set_fs (delete path f)
  | None => raise (FileNotFoundError path)
  end.

(** [os.rename(src, dst)] *)
Definition os_rename (env : environment) (src dst : string) : M unit :=
  emit_event (Os_rename src dst) ;;
  let* f := get_fs in
  match f !! src with
  | None => raise (FileNotFoundError src)
  | Some content =>
      match os env, f !! dst with
      | Windows, Some _ => raise (FileExistsError dst)
      | _, _ => set_fs (<[dst := content]> (delete src f))
      end
  end.

(** [time()] *)
Definition time (env : environment) : M float :=
  fun w => (inr (clock env (ticks w)),
            {| fs := fs w; ticks := S (ticks w); trace := trace w |}).

(** [{"Authorization": f"token {GITHUB_TOKEN}"} if GITHUB_TOKEN else {}] *)
Definition auth_headers (env : environment) : list (string * string) :=
  match GITHUB_TOKEN env with
  | Some token =>
      if PackagingVersion.is_empty token then []
      else [("Authorization", "token " +:+ token)]
  | None => []
  end.

(** [requests.get(url, headers=headers)], [raise_for_status()], [.json()] *)
Definition requests_get_json (env : environment) (url : string) : M release_json :=
  emit_event (Requests_get (Some url) (auth_headers env) false) ;;
  match api env url with
  | inl msg => raise (RequestException msg)
  | inr r => ret r
  end.

(** [requests.get(url, headers=headers, stream=True)], [raise_for_status()] *)
Definition requests_get_stream (env : environment) (url : option string) : M stream :=
  emit_event (Requests_get url (auth_headers env) true) ;;
  match download env url with
  | inl msg => raise (RequestException msg)
  | inr r => ret r
  end.

(** The message of the [ValueError] that [int] raises on a string of
    [digits] digits. *)
Definition int_limit_message (digits : N) : string :=
  "Exceeds the limit (4300 digits) for integer string conversion: value has "
  +:+ NilZero.string_of_uint (N.to_uint digits)
  +:+ " digits; use sys.set_int_max_str_digits() to increase the limit".

(** What [parse(version)] raises when it does not return. *)
Definition parse_raises (version : string) : exn :=
  match PackagingVersion.Version version with
  | PackagingVersion.IntTooLong digits => ValueError (int_limit_message digits)
  | _ => InvalidVersion version
  end.

(** [parse(version)] *)
Definition py_parse (version : string) : M PackagingVersion._Version :=
  match PackagingVersion.parse version with
  | Some v => ret v
  | None => raise (parse_raises version)
  end.

(** [int -> float], rounded to nearest, ties to even. *)
Definition float_of_int (z : Z) : float :=
  SF2Prim (binary_normalize prec emax z 0 false).

(** ** SteamKM_Updater.py *)

Section Updater.

(** [from SteamKM_Version import CURRENT_BUILD]: the version string of the
    running build. *)
Variable CURRENT_BUILD : string.

Variable env : environment.

Definition latest_release_url : string :=
  "https://api.github.com/repos/AbelSniffel/SteamKM/releases/latest".

Definition release_tag_url (latest_version : string) : string :=
  "https://api.github.com/repos/AbelSniffel/SteamKM/releases/tags/" +:+ latest_version.

(** [check_for_updates(branch="Beta")] *)
Definition check_for_updates : M string :=
  try_except
    (let* response := requests_get_json env latest_release_url in
     let latest_version := default "0.0.0" (tag_name response) in
     logging DEBUG ("Latest version from GitHub: " +:+ latest_version) ;;
     let* latest := py_parse latest_version in
     let* current := py_parse CURRENT_BUILD in
     ret (if PackagingVersion.version_gt latest current
          then latest_version else CURRENT_BUILD))
    [(is_RequestException_or_InvalidVersion,
      fun e =>
        logging ERROR ("Error checking for updates: " +:+ str_exn e) ;;
        emit_event (QMessageBox_critical "Update Error" (str_exn e)) ;;
        ret CURRENT_BUILD)].

(** [for chunk in r.iter_content(chunk_size=8192): ...], lines 53 to 57:
    an empty chunk is skipped, any other is written and reported. *)
Fixpoint write_chunks (progress_callback : Z -> Z -> M unit)
    (update_path : string) (file_size : Z)
    (downloaded_size : Z) (cs : list bytes) : M Z :=
  match cs with
  | [] => ret downloaded_size
  | chunk :: cs' =>
      match chunk with
      | [] => write_chunks progress_callback update_path file_size downloaded_size cs'
      | _ :: _ =>
          file_write update_path chunk ;;
          let downloaded_size := (downloaded_size + Z.of_nat (length chunk))%Z in
          progress_callback downloaded_size file_size ;;
          write_chunks progress_callback update_path file_size downloaded_size cs'
      end
  end.

(** Lines 58 to 62: the new file takes the place of the running one,
    which is kept as the backup. *)
Definition install_update (script_path update_path : string) : M unit :=
  let backup_path := script_path +:+ ".bak" in
  let* backup_exists := os_path_exists backup_path in
  (if backup_exists then os_remove backup_path else ret tt) ;;
  os_rename env script_path backup_path ;;
  os_rename env update_path script_path.

(** Lines 42 to 64: the body of the loop for the asset named
    [SteamKM.exe]. *)
Definition download_asset (latest_version : string)
    (progress_callback : Z -> Z -> M unit) (a : asset) : M bool :=
  let download_url := browser_download_url a in
  let script_path := sys_executable env in
  let update_path := script_path +:+ ".new" in
  let file_size := default 0%Z (size a) in
  if (file_size =? 0)%Z then raise (Exception "Failed to get file size.")
  else
    progress_callback 0%Z file_size ;;
    open_wb update_path ;;
    let* r := requests_get_stream env download_url in
    let* _downloaded := write_chunks progress_callback update_path file_size 0%Z (chunks r) in
    match broken r with
    | Some msg => raise (RequestException msg)
    | None =>
        install_update script_path update_path ;;
        logging INFO ("Update to version " +:+ latest_version +:+ " successful.") ;;
        ret true
    end.

(** [for asset in assets: if asset.get("name") == "SteamKM.exe": ...],
    and what follows the loop when no asset has that name. *)
Fixpoint find_and_download (latest_version : string)
    (progress_callback : Z -> Z -> M unit) (remaining : list asset) : M bool :=
  match remaining with
  | a :: rest =>
      if bool_decide (name a = Some "SteamKM.exe")
      then download_asset latest_version progress_callback a
      else find_and_download latest_version progress_callback rest
  | [] =>
      logging ERROR ("No matching asset found for version " +:+ latest_version) ;;
      raise (Exception "No matching asset found for version {latest_version}")
  end.

(** [download_update(latest_version, progress_callback)] *)
Definition download_update (latest_version : string)
    (progress_callback : Z -> Z -> M unit) : M bool :=
  try_except
    (let* response := requests_get_json env (release_tag_url latest_version) in
     find_and_download latest_version progress_callback
       (default [] (assets response)))
    [(is_RequestException,
      fun e =>
        logging ERROR ("Failed to download update: " +:+ str_exn e) ;;
        raise e);
     (is_Exception,
      fun e =>
        logging ERROR ("An error occurred: " +:+ str_exn e) ;;
        raise e)].

(** [UpdateCheckThread.run] *)
Definition UpdateCheckThread_run : M unit :=
  let* latest := check_for_updates in
  let available := negb (String.eqb latest CURRENT_BUILD) in
  emit_event (Emit (update_available available)).

(** A float is true unless it is zero. *)
Definition float_truthy (x : float) : bool := negb (PrimFloat.eqb x 0).

(** Line 118: [time() - self.start_time if self.start_time else 0] *)
Definition elapsed_time (start_time : option float) : M float :=
  match start_time with
  | Some s =>
      if float_truthy s
      then let* now := time env in ret (now - s)%float
      else ret 0%float
  | None => ret 0%float
  end.

(** Line 119: [downloaded / elapsed_time if elapsed_time > 0 and
    downloaded > 0 else 0] *)
Definition download_speed (downloaded : Z) (elapsed : float) : float :=
  if PrimFloat.ltb 0 elapsed && (0 <? downloaded)%Z
  then (float_of_int downloaded / elapsed)%float
  else 0%float.

(** Lines 120 and 121: [remaining_bytes / download_speed if
    download_speed > 0 else 0] *)
Definition estimated_time (downloaded total : Z) (speed : float) : float :=
  let remaining_bytes := (total - downloaded)%Z in
  if PrimFloat.ltb 0 speed
  then (float_of_int remaining_bytes / speed)%float
  else 0%float.

(** [DownloadThread.update_progress(downloaded, total)] *)
Definition update_progress (start_time : option float) (downloaded total : Z) : M unit :=
  let* elapsed := elapsed_time start_time in
  let speed := download_speed downloaded elapsed in
  emit_event (Emit (progress_signal downloaded total
                      (estimated_time downloaded total speed))).

(** [DownloadThread.run] *)
Definition DownloadThread_run (latest_version : string) : M unit :=
  try_except
    (let* start_time := time env in
     let* success := download_update latest_version (update_progress (Some start_time)) in
     emit_event (Emit (finished_signal success)))
    [(is_Exception, fun e => emit_event (Emit (error_signal (str_exn e))))].

End Updater.

(** *** The version list of [UpdateDialog]

    How [fetch_releases] makes the items of the combo box from the tags of
    the releases, and how [on_version_selected] and [download_update] read
    a tag back from an item, with the [str] methods they call. *)

(** [s.startswith(p)] *)
Fixpoint startswith (p s : string) : bool :=
  match p, s with
  | EmptyString, _ => true
  | String a p', String b s' => Ascii.eqb a b && startswith p' s'
  | String _ _, EmptyString => false
  end.

(** The scan of [str.replace(old, new)] for an [old] that is not empty:
    left to right, an occurrence replaced is skipped, so occurrences do
    not overlap. [skip] counts the characters of the occurrence still to
    pass. *)
Fixpoint replace_scan (old new : string) (skip : nat) (s : string) : string :=
  match s with
  | EmptyString => EmptyString
  | String c s' =>
      match skip with
      | S k => replace_scan old new k s'
      | O =>
          if startswith old s
          then new +:+ replace_scan old new (String.length old - 1) s'
          else String c (replace_scan old new 0 s')
      end
  end.

(** [new] after every character of [s]. *)
Fixpoint follow_each (new s : string) : string :=
  match s with
  | EmptyString => EmptyString
  | String c s' => String c (new +:+ follow_each new s')
  end.

(** [s.replace(old, new)]; an empty [old] matches before every character
    and at the end. *)
Definition str_replace (s old new : string) : string :=
  match old with
  | EmptyString => new +:+ follow_each new s
  | String _ _ => replace_scan old new 0 s
  end.

(** [s.rstrip()] *)
Fixpoint str_rstrip (s : string) : string :=
  match s with
  | EmptyString => EmptyString
  | String c s' =>
      match str_rstrip s' with
      | EmptyString => if PackagingVersion.is_space c then EmptyString else String c EmptyString
      | r => String c r
      end
  end.

(** [s.lstrip()] *)
Fixpoint str_lstrip (s : string) : string :=
  match s with
  | String c s' => if PackagingVersion.is_space c then str_lstrip s' else s
  | EmptyString => s
  end.

(** [s.strip()] *)
Definition str_strip (s : string) : string := str_rstrip (str_lstrip s).

(** Lines 210 to 213 of [fetch_releases]: the items added to the combo
    box, from the tags of the releases in the order of the response. *)
Definition version_items (versions : list string) : list string :=
  match versions with
  | [] => []
  | first :: _ =>
      map (fun version =>
             if String.eqb version first then version +:+ " (latest)" else version)
          versions
  end.

(** [QComboBox.itemText(index)]: the empty string when there is no item
    at [index]. *)
Definition itemText (items : list string) (index : Z) : string :=
  if (index <? 0)%Z then EmptyString else nth (Z.to_nat index) items EmptyString.

(** Lines 230 and 237: the text of an item with every ["(latest)"]
    replaced by the empty string, then stripped. *)
Definition selected_version (text : string) : string :=
  str_strip (str_replace text "(latest)" EmptyString).

(** [on_version_selected(index)]: what the Download button is set to. *)
Definition on_version_selected (items : list string) (current_version : string)
    (index : Z) : bool :=
  negb (String.eqb (selected_version (itemText items index)) current_version).

(** ** SteamKM_Config.py *)

#[local] Set Warnings "-register-all".

(** What [json.loads] gives back. *)
Inductive json : Type :=
| JNull
| JBool (b : bool)
| JInt (n : Z)
| JFloat (x : float)
| JStr (s : string)
| JList (items : list json)
| JDict (items : list (string * json)).

Section Config.

(** [json.loads], on the text of a file: the value, or the exception it
    raises. *)
Variable json_loads : string -> exn + json.

(** [isinstance(e, json.JSONDecodeError)] *)
Definition is_JSONDecodeError (e : exn) : bool :=
  match e with JSONDecodeError _ => true | _ => false end.

(** What is at [CONFIG_FILE_PATH]: nothing, or a file, with what
    [read_text()] gives on it: its text, or the exception raised when it
    cannot be read or its bytes are no text. *)
Inductive path_state : Type :=
| Absent
| Present (read_text : exn + string).

(** [load_config()] *)
Definition load_config (config_file : path_state) : exn + json :=
  match config_file with
  | Present read_text =>
      let attempt :=
        match read_text with
        | inr text => json_loads text
        | inl e => inl e
        end in
      match attempt with
      | inr value => inr value
      | inl e => if is_JSONDecodeError e then inr (JDict []) else inl e
      end
  | Absent => inr (JDict [])
  end.

End Config.

(** * Properties *)

(** ** The comparison of Python values is an order *)

Section CmpFacts.
Context {A : Type} `{PyCmpLaws A}.

Lemma py_eq_reflect (x y : A) : reflect (x = y) (py_eq x y).
Proof.
  destruct (py_eq x y) eqn:E; constructor.
  - now apply py_eq_iff.
  - intros ->. assert (py_eq y y = true) by now apply py_eq_iff. congruence.
Qed.

Lemma py_eq_refl (x : A) : py_eq x x = true.
Proof. now apply py_eq_iff. Qed.

Lemma py_eq_sym (x y : A) : py_eq x y = py_eq y x.
Proof.
  destruct (py_eq_reflect x y) as [E|N]; destruct (py_eq_reflect y x) as [E'|N'];
    try reflexivity; congruence.
Qed.

Lemma py_gt_asym (x y : A) : x <> y -> py_gt x y = true -> py_gt y x = false.
Proof.
  intros N G. rewrite (py_gt_flip x y N) in G.
  now destruct (py_gt y x).
Qed.

Lemma py_gt_connected (x y : A) : x <> y -> py_gt x y = false -> py_gt y x = true.
Proof.
  intros N G. rewrite (py_gt_flip x y N) in G.
  now destruct (py_gt y x).
Qed.

End CmpFacts.

#[export] Instance PyCmpLaws_int : PyCmpLaws N.
Proof.
  split; cbn.
  - apply N.eqb_eq.
  - intros x y Hne. destruct (N.ltb_spec y x), (N.ltb_spec x y); cbn; auto; lia.
  - intros x y z _ _ _. rewrite !N.ltb_lt. lia.
Qed.

Lemma N_of_ascii_inj (c d : ascii) : N_of_ascii c = N_of_ascii d -> c = d.
Proof.
  intros E. rewrite <- (ascii_N_embedding c), <- (ascii_N_embedding d).
  now rewrite E.
Qed.

#[export] Instance PyCmpLaws_char : PyCmpLaws ascii.
Proof.
  split; cbn.
  - intros x y. rewrite N.eqb_eq. split; [apply N_of_ascii_inj | now intros ->].
  - intros x y Hne.
    assert (N_of_ascii x <> N_of_ascii y) by (intros E; now apply Hne, N_of_ascii_inj).
    destruct (N.ltb_spec (N_of_ascii y) (N_of_ascii x)),
             (N.ltb_spec (N_of_ascii x) (N_of_ascii y)); cbn; auto; lia.
  - intros x y z _ _ _. rewrite !N.ltb_lt. lia.
Qed.

Lemma str_eq_iff (s t : string) : str_eq s t = true <-> s = t.
Proof.
  revert t. induction s as [|c s IH]; intros [|d t]; cbn [str_eq]; try easy.
  rewrite andb_true_iff, IH, py_eq_iff.
  split; [intros [-> ->] | intros [= -> ->]]; auto.
Qed.

Lemma str_gt_flip (s t : string) : s <> t -> str_gt s t = negb (str_gt t s).
Proof.
  revert t. induction s as [|c s IH]; intros [|d t] Hne; cbn [str_gt]; try easy.
  rewrite (py_eq_sym d c).
  destruct (py_eq_reflect c d) as [->|Hcd].
  - apply IH. congruence.
  - now apply py_gt_flip.
Qed.

Lemma str_gt_trans (s t u : string) :
  s <> t -> t <> u -> s <> u ->
  str_gt s t = true -> str_gt t u = true -> str_gt s u = true.
Proof.
  revert t u. induction s as [|c s IH]; intros [|d t] [|e u]; cbn [str_gt]; try easy.
  intros Hst Htu Hsu.
  destruct (py_eq_reflect c d) as [->|Hcd], (py_eq_reflect d e) as [->|Hde].
  - apply IH; congruence.
  - destruct (py_eq_reflect d e); [easy|]. auto.
  - destruct (py_eq_reflect c e); [easy|]. auto.
  - intros G1 G2. destruct (py_eq_reflect c e) as [->|Hce].
    + rewrite (py_gt_asym _ _ Hcd G1) in G2. discriminate.
    + now apply (py_gt_trans c d e).
Qed.

#[export] Instance PyCmpLaws_str : PyCmpLaws string.
Proof.
  split; [exact str_eq_iff | exact str_gt_flip | exact str_gt_trans].
Qed.

#[export] Instance PyCmpLaws_pair {A B} `{PyCmpLaws A} `{PyCmpLaws B} : PyCmpLaws (A * B).
Proof.
  split.
  - intros [a b] [c d]. cbn [py_eq PyCmp_pair fst snd].
    rewrite andb_true_iff, !py_eq_iff.
    split; [intros [-> ->] | intros [= -> ->]]; auto.
  - intros [a b] [c d] Hne. cbn [py_gt py_eq PyCmp_pair fst snd].
    rewrite (py_eq_sym c a), (py_eq_sym d b).
    destruct (py_eq_reflect a c) as [->|Hac].
    + destruct (py_eq_reflect b d) as [->|Hbd]; [easy|]. now apply py_gt_flip.
    + now apply py_gt_flip.
  - intros [a b] [c d] [e f] Hxy Hyz Hxz. cbn [py_gt py_eq PyCmp_pair fst snd].
    destruct (py_eq_reflect a c) as [->|Hac], (py_eq_reflect c e) as [->|Hce].
    + destruct (py_eq_reflect b d) as [->|Hbd]; [easy|].
      destruct (py_eq_reflect d f) as [->|Hdf]; [easy|].
      destruct (py_eq_reflect b f) as [->|Hbf]; [easy|].
      now apply py_gt_trans.
    + destruct (py_eq_reflect b d); [easy|].
      destruct (py_eq_reflect c e); [easy|]. auto.
    + destruct (py_eq_reflect d f); [easy|].
      destruct (py_eq_reflect a e); [easy|]. auto.
    + intros G1 G2. destruct (py_eq_reflect a e) as [->|Hae].
      * rewrite (py_gt_asym _ _ Hac G1) in G2. discriminate.
      * now apply (py_gt_trans a c e).
Qed.

Lemma tuple_eq_iff {A} `{PyCmpLaws A} (v w : list A) : tuple_eq v w = true <-> v = w.
Proof.
  revert w. induction v as [|x v IH]; intros [|y w]; cbn [tuple_eq]; try easy.
  rewrite andb_true_iff, IH, py_eq_iff.
  split; [intros [-> ->] | intros [= -> ->]]; auto.
Qed.

Lemma tuple_gt_flip {A} `{PyCmpLaws A} (v w : list A) :
  v <> w -> tuple_gt v w = negb (tuple_gt w v).
Proof.
  revert w. induction v as [|x v IH]; intros [|y w] Hne; cbn [tuple_gt]; try easy.
  rewrite (py_eq_sym y x).
  destruct (py_eq_reflect x y) as [->|Hxy].
  - apply IH. congruence.
  - now apply py_gt_flip.
Qed.

Lemma tuple_gt_trans {A} `{PyCmpLaws A} (v w u : list A) :
  v <> w -> w <> u -> v <> u ->
  tuple_gt v w = true -> tuple_gt w u = true -> tuple_gt v u = true.
Proof.
  revert w u. induction v as [|x v IH]; intros [|y w] [|z u]; cbn [tuple_gt]; try easy.
  intros Hvw Hwu Hvu.
  destruct (py_eq_reflect x y) as [->|Hxy], (py_eq_reflect y z) as [->|Hyz].
  - apply IH; congruence.
  - destruct (py_eq_reflect y z); [easy|]. auto.
  - destruct (py_eq_reflect x z); [easy|]. auto.
  - intros G1 G2. destruct (py_eq_reflect x z) as [->|Hxz].
    + rewrite (py_gt_asym _ _ Hxy G1) in G2. discriminate.
    + now apply (py_gt_trans x y z).
Qed.

#[export] Instance PyCmpLaws_tuple {A} `{PyCmpLaws A} : PyCmpLaws (list A).
Proof.
  split; [exact tuple_eq_iff | exact tuple_gt_flip | exact tuple_gt_trans].
Qed.

#[export] Instance PyCmpLaws_with_inf {A} `{PyCmpLaws A} : PyCmpLaws (with_inf A).
Proof.
  split.
  - intros [|a|] [|b|]; cbn [py_eq PyCmp_with_inf]; try easy.
    rewrite py_eq_iff. split; [now intros -> | now intros [= ->]].
  - intros [|a|] [|b|] Hne; cbn [py_gt PyCmp_with_inf]; try easy.
    apply py_gt_flip. congruence.
  - intros [|a|] [|b|] [|c|] Hxy Hyz Hxz; cbn [py_gt PyCmp_with_inf]; try easy.
    apply py_gt_trans; congruence.
Qed.

(** ** The order of versions *)

Import PackagingVersion.

#[export] Instance PyCmpLaws_CmpKey : PyCmpLaws CmpKey.
Proof. unfold CmpKey, CmpLocal, CmpPrePostDev. apply _. Qed.

Lemma tuple_gt_irrefl {A} `{PyCmpLaws A} (v : list A) : tuple_gt v v = false.
Proof.
  induction v as [|x v IH]; cbn [tuple_gt]; [reflexivity|].
  now rewrite py_eq_refl.
Qed.

Lemma pair_gt_irrefl {A B} `{PyCmpLaws A} `{PyCmpLaws B} (p : A * B) : py_gt p p = false.
Proof. cbn [py_gt PyCmp_pair]. now rewrite !py_eq_refl. Qed.

Lemma key_gt_irrefl (k : CmpKey) : py_gt k k = false.
Proof. exact (pair_gt_irrefl k). Qed.

Lemma version_eq_iff (v w : _Version) : version_eq v w = true <-> _key v = _key w.
Proof. unfold version_eq. apply py_eq_iff. Qed.

Lemma version_gt_irrefl (v : _Version) : version_gt v v = false.
Proof. unfold version_gt. apply key_gt_irrefl. Qed.

Lemma version_gt_neq (v w : _Version) : version_gt v w = true -> _key v <> _key w.
Proof.
  unfold version_gt. intros G E. rewrite E in G.
  now rewrite key_gt_irrefl in G.
Qed.

Lemma version_gt_asym (v w : _Version) :
  version_gt v w = true -> version_gt w v = false.
Proof.
  intros G. apply py_gt_asym; [now apply version_gt_neq | exact G].
Qed.

Lemma version_gt_trans (u v w : _Version) :
  version_gt u v = true -> version_gt v w = true -> version_gt u w = true.
Proof.
  intros G1 G2. unfold version_gt.
  apply (py_gt_trans (_key u) (_key v) (_key w)); auto using version_gt_neq.
  intros E. pose proof (version_gt_asym _ _ G1) as G3.
  unfold version_gt in G2, G3. rewrite E in G3. congruence.
Qed.

Lemma version_gt_total (v w : _Version) :
  _key v <> _key w -> version_gt v w = true \/ version_gt w v = true.
Proof.
  intros N. unfold version_gt.
  destruct (py_gt (_key v) (_key w)) eqn:G; [now left|].
  right. now apply py_gt_connected.
Qed.

(** Exactly one of [v > w], [v == w] and [w > v] holds. *)
Definition exactly_one_of (gt eq lt : bool) : Prop :=
  (gt = true /\ eq = false /\ lt = false) \/
  (gt = false /\ eq = true /\ lt = false) \/
  (gt = false /\ eq = false /\ lt = true).

Lemma version_trichotomy (v w : _Version) :
  exactly_one_of (version_gt v w) (version_eq v w) (version_gt w v).
Proof.
  unfold exactly_one_of.
  destruct (version_eq v w) eqn:E.
  - apply version_eq_iff in E. right; left.
    unfold version_gt. rewrite E. now rewrite key_gt_irrefl.
  - assert (N : _key v <> _key w).
    { intros K. apply version_eq_iff in K. congruence. }
    destruct (version_gt_total v w N) as [G|G].
    + left. auto using version_gt_asym.
    + right; right. auto using version_gt_asym.
Qed.

(** *** Releases compare segment by segment, as numbers *)

(** The comparison the specification names: the two lists of segments,
    the shorter one filled up with zeros, compared from the left as
    numbers; the first pair of segments that differ decides. *)
Definition pad_zeros (n : nat) (xs : list N) : list N :=
  xs ++ repeat 0%N (n - length xs).

Fixpoint segments_gt (xs ys : list N) : bool :=
  match xs, ys with
  | x :: xs', y :: ys' => if (x =? y)%N then segments_gt xs' ys' else (y <? x)%N
  | _, _ => false
  end.

Definition numeric_segment_gt (xs ys : list N) : bool :=
  let n := Nat.max (length xs) (length ys) in
  segments_gt (pad_zeros n xs) (pad_zeros n ys).

Definition all_zero (xs : list N) : bool := forallb (fun x => N.eqb x 0) xs.

Lemma dropwhile_app {A} (p : A -> bool) (xs ys : list A) :
  dropwhile p (xs ++ ys) =
  if forallb p xs then dropwhile p ys else dropwhile p xs ++ ys.
Proof.
  induction xs as [|x xs IH]; cbn; [reflexivity|].
  destruct (p x); cbn; [exact IH | reflexivity].
Qed.

Lemma dropwhile_all {A} (p : A -> bool) (xs : list A) :
  forallb p xs = true -> dropwhile p xs = [].
Proof.
  induction xs as [|x xs IH]; cbn; [reflexivity|].
  destruct (p x); cbn; [exact IH | discriminate].
Qed.

Lemma forallb_rev {A} (p : A -> bool) (xs : list A) :
  forallb p (rev xs) = forallb p xs.
Proof.
  induction xs as [|x xs IH]; cbn; [reflexivity|].
  rewrite forallb_app, IH. cbn. rewrite andb_true_r. apply andb_comm.
Qed.

Lemma strip_trailing_zeros_cons (x : N) (xs : list N) :
  strip_trailing_zeros (x :: xs) =
  if all_zero (x :: xs) then [] else x :: strip_trailing_zeros xs.
Proof.
  unfold strip_trailing_zeros, all_zero. cbn [rev forallb].
  rewrite dropwhile_app, forallb_rev. cbn [dropwhile].
  destruct (forallb _ xs) eqn:Z.
  - rewrite andb_true_r. destruct (N.eqb x 0); [reflexivity|].
    rewrite (dropwhile_all _ (rev xs)); [reflexivity|].
    now rewrite forallb_rev.
  - rewrite andb_false_r. rewrite rev_app_distr. reflexivity.
Qed.

Lemma strip_trailing_zeros_nil_iff (xs : list N) :
  strip_trailing_zeros xs = [] <-> all_zero xs = true.
Proof.
  destruct xs as [|x xs]; [easy|].
  rewrite strip_trailing_zeros_cons.
  destruct (all_zero (x :: xs)); easy.
Qed.

Lemma zeros_not_gt (ys : list N) : tuple_gt (repeat 0%N (length ys)) ys = false.
Proof.
  induction ys as [|y ys IH]; cbn [length repeat tuple_gt]; [reflexivity|].
  destruct (py_eq_reflect 0%N y); [exact IH|].
  cbn. apply N.ltb_ge. lia.
Qed.

Lemma gt_zeros (xs : list N) :
  tuple_gt xs (repeat 0%N (length xs)) = negb (all_zero xs).
Proof.
  induction xs as [|x xs IH]; cbn [length repeat tuple_gt]; [reflexivity|].
  unfold all_zero. cbn [forallb]. fold (all_zero xs).
  destruct (py_eq_reflect x 0%N) as [->|Hx].
  - cbn. exact IH.
  - cbn. destruct (N.eqb_spec x 0); [contradiction|].
    cbn. apply N.ltb_lt. lia.
Qed.

Lemma segments_gt_tuple_gt (xs ys : list N) :
  length xs = length ys -> segments_gt xs ys = tuple_gt xs ys.
Proof.
  revert ys. induction xs as [|x xs IH]; intros [|y ys]; cbn [length]; try easy.
  intros [= L]. cbn [segments_gt tuple_gt]. rewrite (IH ys L). reflexivity.
Qed.

Lemma pad_zeros_length (n : nat) (xs : list N) :
  (length xs <= n)%nat -> length (pad_zeros n xs) = n.
Proof.
  intros L. unfold pad_zeros. rewrite length_app, repeat_length. lia.
Qed.

Lemma release_gt_numeric (xs ys : list N) :
  tuple_gt (strip_trailing_zeros xs) (strip_trailing_zeros ys)
  = numeric_segment_gt xs ys.
Proof.
  unfold numeric_segment_gt.
  rewrite segments_gt_tuple_gt by (rewrite !pad_zeros_length; lia).
  unfold pad_zeros.
  revert ys. induction xs as [|x xs IH]; intros [|y ys].
  - reflexivity.
  - cbn [length Nat.max app Nat.sub]. rewrite Nat.sub_diag. cbn [repeat].
    rewrite app_nil_r.
    change (0%N :: repeat 0%N (length ys)) with (repeat 0%N (length (y :: ys))).
    now rewrite zeros_not_gt.
  - cbn [length Nat.max app Nat.sub]. rewrite Nat.sub_diag. cbn [repeat app].
    rewrite app_nil_r.
    change (0%N :: repeat 0%N (length xs)) with (repeat 0%N (length (x :: xs))).
    rewrite gt_zeros.
    destruct (strip_trailing_zeros (x :: xs)) eqn:S.
    + apply strip_trailing_zeros_nil_iff in S. now rewrite S.
    + destruct (all_zero (x :: xs)) eqn:Z; [|reflexivity].
      apply strip_trailing_zeros_nil_iff in Z. congruence.
  - cbn [length app]. rewrite <- Nat.succ_max_distr. cbn [Nat.sub tuple_gt].
    rewrite <- IH. rewrite !strip_trailing_zeros_cons.
    unfold all_zero. cbn [forallb]. fold (all_zero xs) (all_zero ys).
    destruct (N.eqb_spec x 0) as [->|Hx], (N.eqb_spec y 0) as [->|Hy]; cbn [andb].
    + rewrite py_eq_refl.
      destruct (all_zero xs) eqn:Zx, (all_zero ys) eqn:Zy; cbn [tuple_gt];
        try rewrite py_eq_refl; try reflexivity.
      * apply strip_trailing_zeros_nil_iff in Zx, Zy. now rewrite Zx, Zy.
      * apply strip_trailing_zeros_nil_iff in Zx. now rewrite Zx.
      * apply strip_trailing_zeros_nil_iff in Zy. rewrite Zy.
        destruct (strip_trailing_zeros xs) eqn:S; [|reflexivity].
        apply strip_trailing_zeros_nil_iff in S. congruence.
    + destruct (py_eq_reflect 0%N y) as [E|_]; [congruence|].
      destruct (all_zero xs); cbn [tuple_gt].
      * cbn. symmetry. apply N.ltb_ge. lia.
      * destruct (py_eq_reflect 0%N y); [congruence | reflexivity].
    + destruct (py_eq_reflect x 0%N) as [E|_]; [congruence|].
      destruct (all_zero ys); cbn [tuple_gt].
      * cbn. symmetry. apply N.ltb_lt. lia.
      * destruct (py_eq_reflect x 0%N); [congruence | reflexivity].
    + cbn [tuple_gt]. reflexivity.
Qed.

(** *** Parsing a plain dotted number *)

(** The strings made of runs of digits with single dots between them, and
    the numbers such a string lists. *)
Definition dotted_numeric (a : string) : bool :=
  forallb isdigit (split (Ascii.eqb ".") a).

Definition segments (a : string) : list N :=
  map int (split (Ascii.eqb ".") a).

(** What may follow a digit inside such a string. *)
Definition continues_release (s : string) : bool :=
  match split (Ascii.eqb ".") s with
  | p :: ps => all_digits p && forallb isdigit ps
  | [] => false
  end.

Lemma digit_facts (c : ascii) :
  is_digit c = true ->
  is_space c = false /\ Ascii.eqb (lower_char c) "v" = false /\
  Ascii.eqb "." c = false /\ Ascii.eqb c "." = false /\ Ascii.eqb c "!" = false.
Proof.
  destruct c as [[] [] [] [] [] [] [] []]; vm_compute; intros; try discriminate;
    repeat split.
Qed.

Lemma split_cons (sep : ascii -> bool) (s : string) :
  exists p ps, split sep s = p :: ps.
Proof.
  induction s as [|c s (p & ps & E)]; cbn [split]; [eauto|].
  destruct (sep c); [eauto|]. rewrite E. eauto.
Qed.

Lemma continues_release_digit (c : ascii) (s : string) :
  is_digit c = true ->
  continues_release (String c s) = continues_release s.
Proof.
  intros D. destruct (digit_facts c D) as (_ & _ & Hdot & _).
  unfold continues_release. cbn [split]. rewrite Hdot.
  destruct (split_cons (Ascii.eqb ".") s) as (p & ps & ->).
  cbn [all_digits]. now rewrite D.
Qed.

Lemma continues_release_dot (s : string) :
  continues_release (String "." s) = true ->
  exists d s', s = String d s' /\ is_digit d = true /\
               continues_release (String d s') = true.
Proof.
  unfold continues_release. cbn [split]. rewrite Ascii.eqb_refl. cbn [all_digits andb].
  destruct s as [|d s']; [discriminate|].
  intros H. exists d, s'. split; [reflexivity|].
  revert H. cbn [split].
  destruct (Ascii.eqb "." d) eqn:Hd.
  - cbn [forallb]. discriminate.
  - destruct (split_cons (Ascii.eqb ".") s') as (p & ps & ->).
    cbn [forallb isdigit is_empty negb all_digits andb].
    destruct (is_digit d); [auto | discriminate].
Qed.

Lemma continues_release_other (c : ascii) (s : string) :
  is_digit c = false -> Ascii.eqb c "." = false ->
  continues_release (String c s) = false.
Proof.
  intros D Hdot. unfold continues_release. cbn [split].
  rewrite Ascii.eqb_sym, Hdot.
  destruct (split_cons (Ascii.eqb ".") s) as (p & ps & ->).
  cbn [all_digits]. now rewrite D.
Qed.

Lemma match_release_tail_all (s : string) :
  continues_release s = true -> match_release_tail s = (s, EmptyString).
Proof.
  induction s as [|c s IH]; [reflexivity|].
  intros H. cbn [match_release_tail].
  destruct (is_digit c) eqn:D.
  - rewrite continues_release_digit in H by exact D. now rewrite IH.
  - destruct (Ascii.eqb c ".") eqn:Hdot.
    + apply Ascii.eqb_eq in Hdot. subst c.
      destruct (continues_release_dot s H) as (d & s' & -> & Dd & Hs).
      rewrite Dd. now rewrite IH.
    + now rewrite continues_release_other in H.
Qed.

Lemma span_digits_stops (s : string) :
  continues_release s = true ->
  match snd (span_digits s) with
  | EmptyString => True
  | String c _ => c = "."%char
  end.
Proof.
  induction s as [|c s IH]; [easy|].
  intros H. cbn [span_digits].
  destruct (is_digit c) eqn:D.
  - rewrite continues_release_digit in H by exact D.
    specialize (IH H). destruct (span_digits s). exact IH.
  - cbn [snd]. destruct (Ascii.eqb c ".") eqn:Hdot.
    + now apply Ascii.eqb_eq in Hdot.
    + now rewrite continues_release_other in H.
Qed.

Lemma dotted_numeric_inv (a : string) :
  dotted_numeric a = true ->
  exists c a', a = String c a' /\ is_digit c = true /\ continues_release a' = true.
Proof.
  destruct a as [|c a']; [discriminate|].
  unfold dotted_numeric. cbn [split].
  destruct (Ascii.eqb "." c) eqn:Hdot; [discriminate|].
  intros H. exists c, a'. split; [reflexivity|].
  unfold continues_release.
  destruct (split_cons (Ascii.eqb ".") a') as (p & ps & E). rewrite E in *.
  revert H. cbn [forallb isdigit is_empty negb all_digits andb].
  destruct (is_digit c); [auto | discriminate].
Qed.

Lemma regex_search_dotted (a : string) :
  dotted_numeric a = true ->
  regex_search a =
  Some {| g_epoch := None; g_release := a; g_pre_l := None; g_pre_n := None;
          g_post_n1 := None; g_post_l := None; g_post_n2 := None;
          g_dev_l := None; g_dev_n := None; g_local := None |}.
Proof.
  intros H. destruct (dotted_numeric_inv a H) as (c & a' & -> & D & T).
  destruct (digit_facts c D) as (Hsp & Hv & _ & _ & _).
  unfold regex_search. cbn [skip_spaces]. rewrite Hsp.
  cbn [skip_v]. rewrite Hv.
  assert (E : match_epoch (String c a') = (None, String c a')).
  { unfold match_epoch. cbn [span_digits]. rewrite D.
    pose proof (span_digits_stops a' T) as S.
    destruct (span_digits a') as [ds [|r rest]]; [reflexivity|].
    cbn [snd] in S. subst r. reflexivity. }
  rewrite E. unfold match_release. rewrite D.
  rewrite (match_release_tail_all a' T). reflexivity.
Qed.

Lemma parse_dotted (a : string) (v : _Version) :
  dotted_numeric a = true -> parse a = Some v ->
  v = {| epoch := 0; release := segments a; dev := None;
         pre := None; post := None; local := None |}.
Proof.
  intros H. unfold parse, Version. rewrite (regex_search_dotted a H).
  destruct (List.find _ _); [discriminate|]. now intros [= <-].
Qed.

Lemma version_gt_release_only (xs ys : list N) :
  version_gt
    {| epoch := 0; release := xs; dev := None; pre := None; post := None; local := None |}
    {| epoch := 0; release := ys; dev := None; pre := None; post := None; local := None |}
  = numeric_segment_gt xs ys.
Proof.
  rewrite <- release_gt_numeric.
  unfold version_gt, _key, _cmpkey. cbn [epoch release dev pre post local].
  cbn [py_gt py_eq PyCmp_pair PyCmp_with_inf fst snd PyCmp_int PyCmp_tuple].
  rewrite N.eqb_refl. cbn [andb].
  destruct (tuple_eq (strip_trailing_zeros xs) (strip_trailing_zeros ys)) eqn:E;
    [|reflexivity].
  apply tuple_eq_iff in E. rewrite E. now rewrite tuple_gt_irrefl.
Qed.

(** The epoch is compared first, then the release. *)
Lemma version_gt_epoch (v w : _Version) :
  (epoch w < epoch v)%N -> version_gt v w = true.
Proof.
  intros H. unfold version_gt, _key, _cmpkey.
  cbn [py_gt py_eq PyCmp_pair PyCmp_int fst snd].
  destruct (N.eqb_spec (epoch v) (epoch w)) as [E|_]; [lia|].
  cbn [andb]. now apply N.ltb_lt.
Qed.

Lemma version_gt_release (v w : _Version) :
  epoch v = epoch w ->
  numeric_segment_gt (release v) (release w) = true ->
  version_gt v w = true.
Proof.
  intros He Hr. rewrite <- release_gt_numeric in Hr.
  unfold version_gt, _key, _cmpkey. rewrite He.
  cbn [py_gt py_eq PyCmp_pair PyCmp_int PyCmp_tuple fst snd].
  rewrite N.eqb_refl. cbn [andb].
  destruct (tuple_eq (strip_trailing_zeros (release v))
              (strip_trailing_zeros (release w))) eqn:E.
  - apply tuple_eq_iff in E. rewrite E in Hr.
    now rewrite tuple_gt_irrefl in Hr.
  - cbn [andb]. exact Hr.
Qed.

(** C7, as the specification has it, fails across epochs: the segments
    of ["2.0"] are the greater numbers, and ["1!1.0"], of epoch 1, is the
    greater version. *)
Lemma epoch_outranks_numeric_segments :
  exists va vb,
    parse "2.0" = Some va /\ parse "1!1.0" = Some vb /\
    numeric_segment_gt (release va) (release vb) = true /\
    version_gt va vb = false /\ version_gt vb va = true.
Proof. eexists _, _. repeat split. Qed.

(** C7, as the code has it. On version strings that parse, the
    comparison [parse(a) > parse(b)] that [check_for_updates] uses is a
    strict total order of the parsed versions: it is irreflexive and
    transitive, and of [a > b], [a == b] and [b > a] exactly one holds,
    where [==] is equality of the comparison keys. The epoch (0 when the
    string has none) is compared first. Between versions of one epoch the
    order is consistent with the comparison of the release segments as
    numbers, from the left, a missing segment counting as zero: when that
    comparison puts [a] above [b], so does the order, whatever follows
    the release; on plain dotted numbers the order is that comparison. So
    ["1.10.0"] is greater than ["1.9.9"]. *)
Theorem version_compare_strict_total_order (a b c : string) (va vb vc : _Version) :
  parse a = Some va -> parse b = Some vb -> parse c = Some vc ->
  version_gt va va = false /\
  (version_gt va vb = true -> version_gt vb vc = true -> version_gt va vc = true) /\
  exactly_one_of (version_gt va vb) (version_eq va vb) (version_gt vb va) /\
  (version_eq va vb = true <-> _key va = _key vb) /\
  ((epoch vb < epoch va)%N -> version_gt va vb = true) /\
  (epoch va = epoch vb ->
   numeric_segment_gt (release va) (release vb) = true ->
   version_gt va vb = true) /\
  (dotted_numeric a = true -> dotted_numeric b = true ->
   version_gt va vb = numeric_segment_gt (segments a) (segments b)) /\
  (exists v1 v2, parse "1.10.0" = Some v1 /\ parse "1.9.9" = Some v2 /\
                 version_gt v1 v2 = true /\ version_gt v2 v1 = false).
Proof.
  intros Pa Pb Pc.
  split; [apply version_gt_irrefl|].
  split; [apply version_gt_trans|].
  split; [apply version_trichotomy|].
  split; [apply version_eq_iff|].
  split; [apply version_gt_epoch|].
  split; [apply version_gt_release|].
  split.
  - intros Da Db.
    rewrite (parse_dotted a va Da Pa), (parse_dotted b vb Db Pb).
    apply version_gt_release_only.
  - eexists _, _. repeat split.
Qed.

(** The theorem at ["1.10.0"], ["1.9.9"] and ["1.9"], and at the release
    candidate ["1.10.0rc1"], which the release puts above ["1.9.9"]. *)
Lemma version_compare_witness :
  let v1 := {| epoch := 0; release := [1; 10; 0]%N; dev := None;
               pre := None; post := None; local := None |} in
  let v2 := {| epoch := 0; release := [1; 9; 9]%N; dev := None;
               pre := None; post := None; local := None |} in
  let rc := {| epoch := 0; release := [1; 10; 0]%N; dev := None;
               pre := Some ("rc", 1%N); post := None; local := None |} in
  (exactly_one_of (version_gt v1 v2) (version_eq v1 v2) (version_gt v2 v1) /\
   version_gt v1 v2 = numeric_segment_gt [1; 10; 0]%N [1; 9; 9]%N) /\
  version_gt rc v2 = true.
Proof.
  split.
  - pose proof (version_compare_strict_total_order "1.10.0" "1.9.9" "1.9" _ _ _
                  eq_refl eq_refl eq_refl) as (_ & _ & T & _ & _ & _ & D & _).
    split; [exact T | exact (D eq_refl eq_refl)].
  - pose proof (version_compare_strict_total_order "1.10.0rc1" "1.9.9" "1.9" _ _ _
                  eq_refl eq_refl eq_refl) as (_ & _ & _ & _ & _ & R & _).
    exact (R eq_refl eq_refl).
Defined.

(** ** The update checker *)

(** The tag [check_for_updates] compares: the [tag_name] of the response,
    or the default ["0.0.0"] of the [.get]. *)
Definition latest_version_of (response : release_json) : string :=
  default "0.0.0" (tag_name response).

(** The ways the fetch or the comparison fails with an exception that
    [check_for_updates] catches, with the exception raised: the request
    raises, the fetched tag is no version, or the running build is no
    version. *)
Inductive check_raises (CURRENT_BUILD : string) (env : environment) : exn -> Prop :=
| fetch_raises msg :
    api env latest_release_url = inl msg ->
    check_raises CURRENT_BUILD env (RequestException msg)
| latest_invalid response :
    api env latest_release_url = inr response ->
    Version (latest_version_of response) = NotAVersion ->
    check_raises CURRENT_BUILD env (InvalidVersion (latest_version_of response))
| current_invalid response latest :
    api env latest_release_url = inr response ->
    parse (latest_version_of response) = Some latest ->
    Version CURRENT_BUILD = NotAVersion ->
    check_raises CURRENT_BUILD env (InvalidVersion CURRENT_BUILD).

(** The ways the comparison fails with an exception that
    [check_for_updates] does not catch: a number of the fetched tag, or
    of the running build once the tag is parsed, has more digits than
    [int] converts. *)
Inductive check_lets_through (CURRENT_BUILD : string) (env : environment) : exn -> Prop :=
| latest_too_long response digits :
    api env latest_release_url = inr response ->
    Version (latest_version_of response) = IntTooLong digits ->
    check_lets_through CURRENT_BUILD env (ValueError (int_limit_message digits))
| current_too_long response latest digits :
    api env latest_release_url = inr response ->
    parse (latest_version_of response) = Some latest ->
    Version CURRENT_BUILD = IntTooLong digits ->
    check_lets_through CURRENT_BUILD env (ValueError (int_limit_message digits)).

Lemma py_parse_ok (version : string) (v : _Version) :
  parse version = Some v -> py_parse version = ret v.
Proof. unfold py_parse. now intros ->. Qed.

Lemma py_parse_invalid (version : string) :
  Version version = NotAVersion -> py_parse version = raise (InvalidVersion version).
Proof. unfold py_parse, parse_raises, parse. now intros ->. Qed.

Lemma py_parse_too_long (version : string) (digits : N) :
  Version version = IntTooLong digits ->
  py_parse version = raise (ValueError (int_limit_message digits)).
Proof. unfold py_parse, parse_raises, parse. now intros ->. Qed.

Definition is_debug_log (ev : event) : Prop :=
  exists msg, ev = Logging DEBUG msg.

Definition add_events (w : world) (evs : list event) : world :=
  {| fs := fs w; ticks := ticks w; trace := trace w ++ evs |}.

Lemma add_events_nil (w : world) : add_events w [] = w.
Proof. destruct w. unfold add_events. cbn. now rewrite app_nil_r. Qed.

Lemma add_events_app (w : world) (xs ys : list event) :
  add_events (add_events w xs) ys = add_events w (xs ++ ys).
Proof. unfold add_events. cbn. now rewrite app_assoc. Qed.

Lemma emit_event_run (ev : event) (w : world) :
  emit_event ev w = (inr tt, add_events w [ev]).
Proof. reflexivity. Qed.

Lemma check_for_updates_error (CURRENT_BUILD : string) (env : environment)
    (w : world) (e : exn) :
  check_raises CURRENT_BUILD env e ->
  exists debug,
    Forall is_debug_log debug /\
    check_for_updates CURRENT_BUILD env w =
    (inr CURRENT_BUILD,
     add_events w
       (Requests_get (Some latest_release_url) (auth_headers env) false :: debug ++
        [Logging ERROR ("Error checking for updates: " +:+ str_exn e);
         QMessageBox_critical "Update Error" (str_exn e)])).
Proof.
  intros [msg Hapi | response Hapi Hlatest | response latest Hapi Hlatest Hcur].
  - exists []. split; [constructor|].
    unfold check_for_updates, try_except, bind, requests_get_json, bind.
    rewrite emit_event_run, Hapi. cbn.
    unfold add_events. cbn. now rewrite <- !app_assoc.
  - eexists [_]. split; [repeat constructor; eexists; reflexivity|].
    unfold check_for_updates, try_except, bind, requests_get_json, bind.
    rewrite emit_event_run, Hapi. cbn.
    fold (latest_version_of response). rewrite (py_parse_invalid _ Hlatest). cbn.
    unfold add_events. cbn. now rewrite <- !app_assoc.
  - eexists [_]. split; [repeat constructor; eexists; reflexivity|].
    unfold check_for_updates, try_except, bind, requests_get_json, bind.
    rewrite emit_event_run, Hapi. cbn.
    fold (latest_version_of response).
    rewrite (py_parse_ok _ _ Hlatest), (py_parse_invalid _ Hcur). cbn.
    unfold add_events. cbn. now rewrite <- !app_assoc.
Qed.

Lemma check_for_updates_escapes (CURRENT_BUILD : string) (env : environment)
    (w : world) (e : exn) :
  check_lets_through CURRENT_BUILD env e ->
  exists response,
    api env latest_release_url = inr response /\
    check_for_updates CURRENT_BUILD env w =
    (inl e,
     add_events w
       [Requests_get (Some latest_release_url) (auth_headers env) false;
        Logging DEBUG ("Latest version from GitHub: " +:+ latest_version_of response)]).
Proof.
  intros [response digits Hapi Hlatest | response latest digits Hapi Hlatest Hcur];
    exists response; (split; [exact Hapi|]).
  - unfold check_for_updates, try_except, bind, requests_get_json, bind.
    rewrite emit_event_run, Hapi. cbn.
    fold (latest_version_of response). rewrite (py_parse_too_long _ _ Hlatest). cbn.
    unfold add_events. cbn. now rewrite <- !app_assoc.
  - unfold check_for_updates, try_except, bind, requests_get_json, bind.
    rewrite emit_event_run, Hapi. cbn.
    fold (latest_version_of response).
    rewrite (py_parse_ok _ _ Hlatest), (py_parse_too_long _ _ Hcur). cbn.
    unfold add_events. cbn. now rewrite <- !app_assoc.
Qed.

Lemma check_for_updates_ok (CURRENT_BUILD : string) (env : environment)
    (w : world) (response : release_json) (latest current : _Version) :
  api env latest_release_url = inr response ->
  parse (latest_version_of response) = Some latest ->
  parse CURRENT_BUILD = Some current ->
  check_for_updates CURRENT_BUILD env w =
  (inr (if version_gt latest current
        then latest_version_of response else CURRENT_BUILD),
   add_events w
     [Requests_get (Some latest_release_url) (auth_headers env) false;
      Logging DEBUG ("Latest version from GitHub: " +:+ latest_version_of response)]).
Proof.
  intros Hapi Hlatest Hcur.
  unfold check_for_updates, try_except, bind, requests_get_json, bind.
  rewrite emit_event_run, Hapi. cbn.
  fold (latest_version_of response).
  rewrite (py_parse_ok _ _ Hlatest), (py_parse_ok _ _ Hcur). cbn.
  unfold add_events. cbn. now rewrite <- !app_assoc.
Qed.

(** What the check comes to is decided by the answer of the feed and by
    what [Version] makes of the tag and of the running build. *)
Inductive check_outcome (CURRENT_BUILD : string) (env : environment) : Type :=
| check_caught (e : exn) (H : check_raises CURRENT_BUILD env e)
| check_uncaught (e : exn) (H : check_lets_through CURRENT_BUILD env e)
| check_compared (response : release_json) (latest current : _Version)
    (Hapi : api env latest_release_url = inr response)
    (Hlatest : parse (latest_version_of response) = Some latest)
    (Hcur : parse CURRENT_BUILD = Some current).

Lemma parse_Parsed (version : string) (v : _Version) :
  Version version = Parsed v -> parse version = Some v.
Proof. unfold parse. now intros ->. Qed.

Lemma parse_Some (version : string) (v : _Version) :
  parse version = Some v -> Version version = Parsed v.
Proof. unfold parse. destruct (Version version); congruence. Qed.

Lemma check_outcome_cases (CURRENT_BUILD : string) (env : environment) :
  check_outcome CURRENT_BUILD env.
Proof.
  destruct (api env latest_release_url) as [msg|response] eqn:Hapi.
  { exact (check_caught _ _ _ (fetch_raises _ _ msg Hapi)). }
  destruct (Version (latest_version_of response)) as [latest| |digits] eqn:Hlatest.
  2: { exact (check_caught _ _ _ (latest_invalid _ _ response Hapi Hlatest)). }
  2: { exact (check_uncaught _ _ _ (latest_too_long _ _ response digits Hapi Hlatest)). }
  apply parse_Parsed in Hlatest.
  destruct (Version CURRENT_BUILD) as [current| |digits] eqn:Hcur.
  - apply parse_Parsed in Hcur.
    exact (check_compared _ _ response latest current Hapi Hlatest Hcur).
  - exact (check_caught _ _ _ (current_invalid _ _ response latest Hapi Hlatest Hcur)).
  - exact (check_uncaught _ _ _
             (current_too_long _ _ response latest digits Hapi Hlatest Hcur)).
Qed.

(** C6. When the fetch of the latest release raises a
    [RequestException], or the comparison raises [InvalidVersion] (on the
    fetched tag or on the running build), [UpdateCheckThread.run] returns
    normally, the one signal it emits is [update_available(False)], and
    before that the error is logged and shown in the critical message box
    titled "Update Error" with [str(e)] as its text. *)
Theorem update_check_error_reports_no_update (CURRENT_BUILD : string)
    (env : environment) (w : world) (e : exn) :
  check_raises CURRENT_BUILD env e ->
  exists debug,
    Forall is_debug_log debug /\
    UpdateCheckThread_run CURRENT_BUILD env w =
    (inr tt,
     add_events w
       (Requests_get (Some latest_release_url) (auth_headers env) false :: debug ++
        [Logging ERROR ("Error checking for updates: " +:+ str_exn e);
         QMessageBox_critical "Update Error" (str_exn e);
         Emit (update_available false)])).
Proof.
  intros H.
  destruct (check_for_updates_error CURRENT_BUILD env w e H) as (debug & Hd & E).
  exists debug. split; [exact Hd|].
  unfold UpdateCheckThread_run, bind. rewrite E.
  rewrite String.eqb_refl. cbn [negb].
  rewrite emit_event_run, add_events_app. cbn [app].
  now rewrite <- app_assoc.
Qed.

(** The environment of the examples: no token, a release feed that
    cannot be reached, a clock that starts at 100 seconds and advances by
    one second at each reading. *)
Definition offline : environment :=
  {| os := Windows;
     sys_executable := "C:\SteamKM\SteamKM.exe";
     GITHUB_TOKEN := None;
     api := fun _ => inl "Connection refused";
     download := fun _ => inl "Connection refused";
     clock := fun n => (100 + float_of_int (Z.of_nat n))%float |}.

Definition empty_world : world := {| fs := ∅; ticks := 0; trace := [] |}.

(** The theorem on a running build ["1.2.0"], with the release feed out
    of reach. *)
Lemma update_check_error_witness :
  exists debug,
    Forall is_debug_log debug /\
    UpdateCheckThread_run "1.2.0" offline empty_world =
    (inr tt,
     add_events empty_world
       (Requests_get (Some latest_release_url) [] false :: debug ++
        [Logging ERROR "Error checking for updates: Connection refused";
         QMessageBox_critical "Update Error" "Connection refused";
         Emit (update_available false)])).
Proof.
  apply (update_check_error_reports_no_update "1.2.0" offline empty_world
           (RequestException "Connection refused")).
  apply fetch_raises. reflexivity.
Defined.

(** C9, as the code has it. Whenever [check_for_updates] returns, what
    it returns is either the running build [CURRENT_BUILD], or the tag it
    read from the response (the [tag_name], ["0.0.0"] when the response
    has none), and then both parse and the tag is strictly greater than
    the running build: it is neither equal to it nor smaller. It catches
    [RequestException] and [InvalidVersion] and returns [CURRENT_BUILD]
    on them; it does not return when [int] refuses a number of the tag or
    of the running build for its more than 4300 digits: the [ValueError]
    is not caught. Either way it leaves the files as they were. *)
Theorem check_for_updates_result (CURRENT_BUILD : string) (env : environment)
    (w : world) :
  (exists (v : string) (w' : world),
     check_for_updates CURRENT_BUILD env w = (inr v, w') /\
     fs w' = fs w /\
     (v = CURRENT_BUILD \/
      exists response latest current,
        api env latest_release_url = inr response /\
        v = latest_version_of response /\
        parse v = Some latest /\
        parse CURRENT_BUILD = Some current /\
        version_gt latest current = true /\
        version_eq latest current = false /\
        version_gt current latest = false)) \/
  (exists (e : exn) (w' : world),
     check_for_updates CURRENT_BUILD env w = (inl e, w') /\
     fs w' = fs w /\
     is_RequestException_or_InvalidVersion e = false /\
     check_lets_through CURRENT_BUILD env e).
Proof.
  destruct (check_outcome_cases CURRENT_BUILD env)
    as [e H | e H | response latest current Hapi Hlatest Hcur].
  - left.
    destruct (check_for_updates_error CURRENT_BUILD env w e H) as (debug & _ & E).
    exists CURRENT_BUILD. eexists. split; [exact E|]. split; [reflexivity|now left].
  - right.
    destruct (check_for_updates_escapes CURRENT_BUILD env w e H) as (response & _ & E).
    exists e. eexists. split; [exact E|]. split; [reflexivity|].
    split; [now destruct H|exact H].
  - left.
    rewrite (check_for_updates_ok CURRENT_BUILD env w response latest current
               Hapi Hlatest Hcur).
    destruct (version_gt latest current) eqn:G.
    + eexists _, _. split; [reflexivity|]. split; [reflexivity|]. right.
      exists response, latest, current. repeat split; auto.
      * destruct (version_trichotomy latest current)
          as [(_ & E & _)|[(G' & _)|(G' & _)]];
          [exact E | congruence | congruence].
      * now apply version_gt_asym.
    + eexists _, _. split; [reflexivity|]. split; [reflexivity|]. now left.
Qed.

(** ** The download worker *)

(** How computations run. *)
Lemma bind_ok {A B} (m : M A) (k : A -> M B) (w w' : world) (a : A) :
  m w = (inr a, w') -> bind m k w = k a w'.
Proof. unfold bind. now intros ->. Qed.

Lemma bind_raise {A B} (m : M A) (k : A -> M B) (w w' : world) (e : exn) :
  m w = (inl e, w') -> bind m k w = (inl e, w').
Proof. unfold bind. now intros ->. Qed.

Lemma try_except_ok {A} (m : M A) clauses (w w' : world) (a : A) :
  m w = (inr a, w') -> try_except m clauses w = (inr a, w').
Proof. unfold try_except. now intros ->. Qed.

Lemma try_except_raise {A} (m : M A) clauses (w w' : world) (e : exn) :
  m w = (inl e, w') -> try_except m clauses w = handle clauses e w'.
Proof. unfold try_except. now intros ->. Qed.

Lemma logging_run (level : log_level) (msg : string) (w : world) :
  logging level msg w = (inr tt, add_events w [Logging level msg]).
Proof. reflexivity. Qed.

Lemma requests_get_json_run (env : environment) (url : string) (w : world) :
  requests_get_json env url w =
  (match api env url with
   | inl msg => inl (RequestException msg)
   | inr r => inr r
   end,
   add_events w [Requests_get (Some url) (auth_headers env) false]).
Proof.
  unfold requests_get_json, bind. rewrite emit_event_run.
  destruct (api env url); reflexivity.
Qed.

(** The asset the loop of [download_update] stops at. *)
Definition is_target (a : asset) : bool :=
  bool_decide (name a = Some "SteamKM.exe").

Definition find_asset (l : list asset) : option asset := List.find is_target l.

Lemma find_and_download_found (env : environment) (v : string)
    (cb : Z -> Z -> M unit) (l : list asset) (a : asset) :
  find_asset l = Some a ->
  find_and_download env v cb l = download_asset env v cb a.
Proof.
  unfold find_asset. induction l as [|x l IH]; cbn [List.find find_and_download];
    [discriminate|].
  unfold is_target at 1. destruct (bool_decide (name x = Some "SteamKM.exe")).
  - now intros [= ->].
  - exact IH.
Qed.

Lemma find_and_download_missing (env : environment) (v : string)
    (cb : Z -> Z -> M unit) (l : list asset) (w : world) :
  find_asset l = None ->
  find_and_download env v cb l w =
  (inl (Exception "No matching asset found for version {latest_version}"),
   add_events w [Logging ERROR ("No matching asset found for version " +:+ v)]).
Proof.
  unfold find_asset. induction l as [|x l IH]; cbn [List.find find_and_download].
  - reflexivity.
  - unfold is_target at 1. destruct (bool_decide (name x = Some "SteamKM.exe")).
    + discriminate.
    + exact IH.
Qed.

(** The world after [DownloadThread.run] read the clock once and the
    events [evs] happened, the files untouched. *)
Definition after_start (w : world) (evs : list event) : world :=
  {| fs := fs w; ticks := S (ticks w); trace := trace w ++ evs |}.

(** C4. When the release has no asset named [SteamKM.exe],
    [download_update] raises (the plain [Exception] whose message is "No
    matching asset found for version {latest_version}", which
    [DownloadThread.run] turns into its [error_signal]) after the one
    request for the release: no file is opened, written, removed or
    renamed, and the filesystem is as it was. *)
Theorem missing_asset_fails (env : environment) (latest_version : string)
    (progress_callback : Z -> Z -> M unit) (w : world) (response : release_json) :
  api env (release_tag_url latest_version) = inr response ->
  find_asset (default [] (assets response)) = None ->
  let not_found := "No matching asset found for version {latest_version}" in
  let request :=
    Requests_get (Some (release_tag_url latest_version)) (auth_headers env) false in
  download_update env latest_version progress_callback w =
    (inl (Exception not_found),
     add_events w
       [request;
        Logging ERROR ("No matching asset found for version " +:+ latest_version);
        Logging ERROR ("An error occurred: " +:+ not_found)]) /\
  DownloadThread_run env latest_version w =
    (inr tt,
     after_start w
       [request;
        Logging ERROR ("No matching asset found for version " +:+ latest_version);
        Logging ERROR ("An error occurred: " +:+ not_found);
        Emit (error_signal not_found)]).
Proof.
  intros Hapi Hfind not_found request.
  assert (D : forall cb w0,
    download_update env latest_version cb w0 =
    (inl (Exception not_found),
     add_events w0
       [request;
        Logging ERROR ("No matching asset found for version " +:+ latest_version);
        Logging ERROR ("An error occurred: " +:+ not_found)])).
  { intros cb w0. unfold download_update.
    erewrite try_except_raise.
    2: { erewrite bind_ok by (rewrite requests_get_json_run, Hapi; reflexivity).
         now apply find_and_download_missing. }
    cbn [handle is_RequestException is_Exception].
    unfold bind. rewrite logging_run. unfold raise.
    now rewrite !add_events_app. }
  split; [apply D|].
  unfold DownloadThread_run.
  erewrite try_except_raise.
  2: { unfold bind at 1. cbn [time]. erewrite bind_raise by apply D. reflexivity. }
  cbn [handle is_Exception]. rewrite emit_event_run.
  unfold add_events, after_start. cbn. now rewrite <- !app_assoc.
Qed.

(** A release feed for the examples: every request is answered with the
    release [response], every download with the stream [body]. *)
Definition serving (response : release_json) (body : stream) : environment :=
  {| os := Windows;
     sys_executable := "C:\SteamKM\SteamKM.exe";
     GITHUB_TOKEN := None;
     api := fun _ => inr response;
     download := fun _ => inr body;
     clock := fun n => (100 + float_of_int (Z.of_nat n))%float |}.

(** The default of the [.get] is compared like a tag: a response without
    [tag_name], read by a build that sorts below ["0.0.0"], gives
    ["0.0.0"]. *)
Example default_tag_is_compared :
  fst (check_for_updates "0.0.0a1"
         (serving {| tag_name := None; assets := None |}
                  {| chunks := []; broken := None |})
         empty_world) = inr "0.0.0".
Proof. vm_compute. reflexivity. Qed.

Definition no_body : stream := {| chunks := []; broken := None |}.

(** A release whose tag is a 1 followed by 4300 zeros. *)
Definition long_tag : release_json :=
  {| tag_name := Some (String "1" (string_of_list_ascii (List.repeat "0"%char (N.to_nat 4300))));
     assets := Some [] |}.

(** C9, as the specification has it, fails on that release: the pattern
    of [packaging] matches the tag, [int] refuses its 4301 digits, and the
    [ValueError] is none of the two classes that [check_for_updates]
    catches, so it returns nothing. *)
Lemma check_for_updates_raises_on_long_tag :
  (exists w',
     check_for_updates "1.0" (serving long_tag no_body) empty_world =
     (inl (ValueError (int_limit_message 4301)), w')) /\
  ~ (exists v w',
       check_for_updates "1.0" (serving long_tag no_body) empty_world = (inr v, w')).
Proof.
  assert (E : fst (check_for_updates "1.0" (serving long_tag no_body) empty_world) =
              inl (ValueError (int_limit_message 4301))).
  { vm_compute. reflexivity. }
  split.
  - eexists. apply injective_projections; [exact E|reflexivity].
  - intros (v & w' & H). rewrite H in E. discriminate E.
Qed.

Definition notes_only : release_json :=
  {| tag_name := Some "1.3.0";
     assets := Some [{| name := Some "notes.txt";
                        browser_download_url := Some "https://example.org/notes.txt";
                        size := Some 12%Z |}] |}.

(** The theorem on a release whose only asset is [notes.txt]. *)
Lemma missing_asset_witness :
  DownloadThread_run (serving notes_only no_body) "1.3.0" empty_world =
  (inr tt,
   after_start empty_world
     [Requests_get (Some (release_tag_url "1.3.0")) [] false;
      Logging ERROR "No matching asset found for version 1.3.0";
      Logging ERROR "An error occurred: No matching asset found for version {latest_version}";
      Emit (error_signal "No matching asset found for version {latest_version}")]).
Proof.
  exact (proj2 (missing_asset_fails (serving notes_only no_body) "1.3.0"
                  (fun _ _ => ret tt) empty_world notes_only eq_refl eq_refl)).
Defined.

(** C5. When the asset named [SteamKM.exe] reports the size 0 (or none),
    [download_update] raises (the plain [Exception] whose message is
    "Failed to get file size.", which [DownloadThread.run] turns into its
    [error_signal]) after the one request for the release: the progress
    callback is not called, the asset is not requested, and no file is
    opened or written. *)
Theorem zero_size_fails (env : environment) (latest_version : string)
    (progress_callback : Z -> Z -> M unit) (w : world)
    (response : release_json) (a : asset) :
  api env (release_tag_url latest_version) = inr response ->
  find_asset (default [] (assets response)) = Some a ->
  default 0%Z (size a) = 0%Z ->
  let request :=
    Requests_get (Some (release_tag_url latest_version)) (auth_headers env) false in
  download_update env latest_version progress_callback w =
    (inl (Exception "Failed to get file size."),
     add_events w
       [request; Logging ERROR "An error occurred: Failed to get file size."]) /\
  DownloadThread_run env latest_version w =
    (inr tt,
     after_start w
       [request; Logging ERROR "An error occurred: Failed to get file size.";
        Emit (error_signal "Failed to get file size.")]).
Proof.
  intros Hapi Hfind Hsize request.
  assert (D : forall cb w0,
    download_update env latest_version cb w0 =
    (inl (Exception "Failed to get file size."),
     add_events w0
       [request; Logging ERROR "An error occurred: Failed to get file size."])).
  { intros cb w0. unfold download_update.
    erewrite try_except_raise.
    2: { erewrite bind_ok by (rewrite requests_get_json_run, Hapi; reflexivity).
         rewrite (find_and_download_found _ _ _ _ a Hfind).
         unfold download_asset. rewrite Hsize. reflexivity. }
    cbn [handle is_RequestException is_Exception].
    unfold bind. rewrite logging_run. unfold raise.
    now rewrite !add_events_app. }
  split; [apply D|].
  unfold DownloadThread_run.
  erewrite try_except_raise.
  2: { unfold bind at 1. cbn [time]. erewrite bind_raise by apply D. reflexivity. }
  cbn [handle is_Exception]. rewrite emit_event_run.
  unfold add_events, after_start. cbn. now rewrite <- !app_assoc.
Qed.

Definition empty_binary : release_json :=
  {| tag_name := Some "1.3.0";
     assets := Some [{| name := Some "SteamKM.exe";
                        browser_download_url := Some "https://example.org/SteamKM.exe";
                        size := Some 0%Z |}] |}.

(** The theorem on a release whose [SteamKM.exe] reports the size 0. *)
Lemma zero_size_witness :
  DownloadThread_run (serving empty_binary no_body) "1.3.0" empty_world =
  (inr tt,
   after_start empty_world
     [Requests_get (Some (release_tag_url "1.3.0")) [] false;
      Logging ERROR "An error occurred: Failed to get file size.";
      Emit (error_signal "Failed to get file size.")]).
Proof.
  exact (proj2 (zero_size_fails (serving empty_binary no_body) "1.3.0"
                  (fun _ _ => ret tt) empty_world empty_binary _ eq_refl eq_refl eq_refl)).
Defined.

(** ** The installer *)

Lemma append_inj_l (s t u : string) : s +:+ t = s +:+ u -> t = u.
Proof.
  induction s as [|c s IH]; cbn; [auto|]. intros [= E]. auto.
Qed.

Lemma append_suffix_neq (s t : string) : t <> EmptyString -> s +:+ t <> s.
Proof.
  intros Ht E. apply Ht. apply (append_inj_l s).
  rewrite E. clear. induction s as [|c s IH]; [reflexivity|].
  change (String c s = String c (s +:+ EmptyString)). now f_equal.
Qed.

(** The three paths of an install are three different paths. *)
Lemma install_paths_distinct (script_path : string) :
  script_path +:+ ".bak" <> script_path /\
  script_path +:+ ".new" <> script_path /\
  script_path +:+ ".new" <> script_path +:+ ".bak".
Proof.
  split; [|split].
  - now apply append_suffix_neq.
  - now apply append_suffix_neq.
  - intros E. apply append_inj_l in E. discriminate.
Qed.

Lemma os_rename_run (env : environment) (src dst : string) (w : world) (content : bytes) :
  fs w !! src = Some content ->
  fs w !! dst = None ->
  os_rename env src dst w =
  (inr tt, {| fs := <[dst := content]> (delete src (fs w));
              ticks := ticks w;
              trace := trace w ++ [Os_rename src dst] |}).
Proof.
  intros Hsrc Hdst. unfold os_rename, bind, get_fs, set_fs.
  rewrite emit_event_run. cbn [add_events fs ticks trace].
  rewrite Hsrc, Hdst. destruct (os env); reflexivity.
Qed.

(** The events of the install step: the old backup is removed when there
    is one, then the two renames. *)
Definition install_events (script_path : string) (had_backup : bool) : list event :=
  (if had_backup then [Os_remove (script_path +:+ ".bak")] else []) ++
  [Os_rename script_path (script_path +:+ ".bak");
   Os_rename (script_path +:+ ".new") script_path].

(** The files after the install step, from the files [f] before it, with
    [R] the running binary and [N] the staged file. *)
Definition installed (script_path : string) (R N : bytes)
    (f : gmap string bytes) : gmap string bytes :=
  <[script_path := N]>
    (delete (script_path +:+ ".new")
       (<[script_path +:+ ".bak" := R]>
          (delete script_path (delete (script_path +:+ ".bak") f)))).

Lemma install_update_run (env : environment) (w : world)
    (script_path : string) (R N : bytes) :
  fs w !! script_path = Some R ->
  fs w !! (script_path +:+ ".new") = Some N ->
  install_update env script_path (script_path +:+ ".new") w =
  (inr tt,
   {| fs := installed script_path R N (fs w);
      ticks := ticks w;
      trace := trace w ++
        install_events script_path
          (bool_decide (is_Some (fs w !! (script_path +:+ ".bak")))) |}).
Proof.
  intros HR HN.
  destruct (install_paths_distinct script_path) as (Hbs & Hns & Hnb).
  unfold installed, install_events.
  set (bak := script_path +:+ ".bak") in *. set (new := script_path +:+ ".new") in *.
  (* after the optional removal of the old backup *)
  assert (Step1 :
    bind (os_path_exists bak)
      (fun backup_exists => if backup_exists then os_remove bak else ret tt) w
    = (inr tt,
       {| fs := delete bak (fs w); ticks := ticks w;
          trace := trace w ++
            (if bool_decide (is_Some (fs w !! bak)) then [Os_remove bak] else []) |})).
  { unfold bind, os_path_exists, bind, get_fs, ret.
    destruct (fs w !! bak) as [old|] eqn:Hbak.
    - rewrite bool_decide_eq_true_2 by eauto.
      unfold os_remove, bind, get_fs, set_fs. rewrite emit_event_run.
      cbn [add_events fs ticks trace]. now rewrite Hbak.
    - rewrite bool_decide_eq_false_2 by (intros [? ?]; discriminate).
      rewrite delete_id by exact Hbak. rewrite app_nil_r. now destruct w. }
  unfold install_update. fold bak.
  change (bind (os_path_exists bak) _ w) with
    (bind (bind (os_path_exists bak)
             (fun backup_exists => if backup_exists then os_remove bak else ret tt))
          (fun _ => os_rename env script_path bak ;; os_rename env new script_path) w).
  erewrite bind_ok by exact Step1.
  erewrite bind_ok.
  2: { apply (os_rename_run env script_path bak _ R); cbn [fs].
       - rewrite lookup_delete_ne by exact Hbs. exact HR.
       - apply lookup_delete_eq. }
  rewrite (os_rename_run env new script_path _ N); cbn [fs ticks trace].
  - now rewrite <- !app_assoc.
  - rewrite lookup_insert_ne by (intros E; now apply Hnb).
    rewrite lookup_delete_ne by (intros E; now apply Hns).
    rewrite lookup_delete_ne by (intros E; now apply Hnb). exact HN.
  - rewrite lookup_insert_ne by exact Hbs. apply lookup_delete_eq.
Qed.

Lemma installed_lookup (script_path : string) (R N : bytes)
    (f : gmap string bytes) (p : string) :
  installed script_path R N f !! p =
  if decide (p = script_path) then Some N
  else if decide (p = script_path +:+ ".new") then None
  else if decide (p = script_path +:+ ".bak") then Some R
  else f !! p.
Proof.
  destruct (install_paths_distinct script_path) as (Hbs & Hns & Hnb).
  unfold installed.
  destruct (decide (p = script_path)) as [->|H1]; [apply lookup_insert_eq|].
  rewrite lookup_insert_ne by congruence.
  destruct (decide (p = script_path +:+ ".new")) as [->|H2]; [apply lookup_delete_eq|].
  rewrite lookup_delete_ne by congruence.
  destruct (decide (p = script_path +:+ ".bak")) as [->|H3]; [apply lookup_insert_eq|].
  rewrite lookup_insert_ne by congruence.
  rewrite !lookup_delete_ne by congruence. reflexivity.
Qed.

(** C1. With the running binary [R] at the executable path and a staged
    file [N] at the [.new] path, the install step of [download_update]
    (lines 58 to 62) succeeds on either platform and leaves [R] at the
    [.bak] path, [N] at the executable path and nothing at the [.new]
    path, every other file as it was. A [.bak] file that was there before
    is removed first, before the two renames, so the one [.bak] file
    afterwards is [R]. *)
Theorem install_round_trip (env : environment) (w : world)
    (script_path : string) (R N : bytes) :
  fs w !! script_path = Some R ->
  fs w !! (script_path +:+ ".new") = Some N ->
  exists w',
    install_update env script_path (script_path +:+ ".new") w = (inr tt, w') /\
    fs w' !! (script_path +:+ ".bak") = Some R /\
    fs w' !! script_path = Some N /\
    fs w' !! (script_path +:+ ".new") = None /\
    (forall p, p <> script_path -> p <> script_path +:+ ".new" ->
               p <> script_path +:+ ".bak" -> fs w' !! p = fs w !! p) /\
    trace w' = trace w ++
      install_events script_path (bool_decide (is_Some (fs w !! (script_path +:+ ".bak")))).
Proof.
  intros HR HN.
  destruct (install_paths_distinct script_path) as (Hbs & Hns & Hnb).
  eexists. split; [exact (install_update_run env w script_path R N HR HN)|].
  cbn [fs trace]. repeat split.
  - rewrite installed_lookup.
    destruct (decide _) as [E|_]; [contradiction|].
    destruct (decide _) as [E|_]; [symmetry in E; contradiction|].
    now destruct (decide _).
  - rewrite installed_lookup. now destruct (decide _).
  - rewrite installed_lookup.
    destruct (decide _) as [E|_]; [contradiction|].
    now destruct (decide _).
  - intros p H1 H2 H3. rewrite installed_lookup.
    repeat (destruct (decide _); [contradiction|]). reflexivity.
Qed.

Import Byte.

(** A disk for the examples: the running binary, a staged update and a
    backup of an earlier install. *)
Definition exe : string := "C:\SteamKM\SteamKM.exe".

Definition staged_disk : gmap string bytes :=
  <[exe := [x4f; x4c; x44]]>
    (<[exe +:+ ".new" := [x4e; x45; x57]]>
       (<[exe +:+ ".bak" := [x30]]> ∅)).

Definition staged_world : world :=
  {| fs := staged_disk; ticks := 0; trace := [] |}.

(** The theorem on that disk: the earlier backup goes, the running
    binary becomes the backup, the staged file becomes the binary. *)
Lemma install_round_trip_witness :
  exists w',
    install_update offline exe (exe +:+ ".new") staged_world = (inr tt, w') /\
    fs w' !! (exe +:+ ".bak") = Some [x4f; x4c; x44] /\
    fs w' !! exe = Some [x4e; x45; x57] /\
    fs w' !! (exe +:+ ".new") = None /\
    (forall p, p <> exe -> p <> exe +:+ ".new" -> p <> exe +:+ ".bak" ->
               fs w' !! p = fs staged_world !! p) /\
    trace w' = [Os_remove (exe +:+ ".bak");
                Os_rename exe (exe +:+ ".bak");
                Os_rename (exe +:+ ".new") exe].
Proof.
  exact (install_round_trip offline staged_world exe
           [x4f; x4c; x44] [x4e; x45; x57] eq_refl eq_refl).
Defined.

(** ** Progress notifications *)

(** The [(downloaded, total)] of each [progress_signal] of a trace, in
    the order of emission. *)
Definition progress_of (ev : event) : option (Z * Z) :=
  match ev with
  | Emit (progress_signal downloaded total _) => Some (downloaded, total)
  | _ => None
  end.

Fixpoint progress_notifications (tr : list event) : list (Z * Z) :=
  match tr with
  | [] => []
  | ev :: tr' =>
      match progress_of ev with
      | Some p => p :: progress_notifications tr'
      | None => progress_notifications tr'
      end
  end.

(** [downloaded_size] after each chunk that is not empty. *)
Fixpoint running_totals (downloaded_size : Z) (cs : list bytes) : list Z :=
  match cs with
  | [] => []
  | [] :: cs' => running_totals downloaded_size cs'
  | chunk :: cs' =>
      let downloaded_size := (downloaded_size + Z.of_nat (length chunk))%Z in
      downloaded_size :: running_totals downloaded_size cs'
  end.

(** The sum of the sizes of the chunks. *)
Definition total_length (cs : list bytes) : Z :=
  fold_right (fun chunk n => (Z.of_nat (length chunk) + n)%Z) 0%Z cs.

Lemma progress_notifications_app (xs ys : list event) :
  progress_notifications (xs ++ ys) = progress_notifications xs ++ progress_notifications ys.
Proof.
  induction xs as [|x xs IH]; cbn [app progress_notifications]; [reflexivity|].
  destruct (progress_of x); cbn [app]; now rewrite IH.
Qed.

(** A computation that emits no progress signal. *)
Definition quiet {A} (m : M A) : Prop :=
  forall w, progress_notifications (trace (snd (m w))) = progress_notifications (trace w).

(** A computation that, from [w], emits the progress signals [ps]. *)
Definition adds {A} (m : M A) (w : world) (ps : list (Z * Z)) : Prop :=
  progress_notifications (trace (snd (m w))) = progress_notifications (trace w) ++ ps.

Lemma quiet_ret {A} (a : A) : quiet (ret a).
Proof. now intros w. Qed.

Lemma quiet_raise {A} (e : exn) : quiet (@raise A e).
Proof. now intros w. Qed.

Lemma quiet_emit_event (ev : event) : progress_of ev = None -> quiet (emit_event ev).
Proof.
  intros H w. cbn. rewrite progress_notifications_app. cbn. rewrite H.
  apply app_nil_r.
Qed.

Lemma quiet_bind {A B} (m : M A) (k : A -> M B) :
  quiet m -> (forall a, quiet (k a)) -> quiet (bind m k).
Proof.
  intros Hm Hk w. unfold bind. specialize (Hm w).
  destruct (m w) as [[e|a] w']; cbn [snd] in *; [exact Hm|].
  now rewrite Hk.
Qed.

Lemma quiet_handle {A} (clauses : list ((exn -> bool) * (exn -> M A))) (e : exn) :
  Forall (fun c => forall e, quiet (snd c e)) clauses -> quiet (handle clauses e).
Proof.
  induction 1 as [|[caught handler] rest Hc _ IH]; cbn [handle].
  - apply quiet_raise.
  - destruct (caught e); [apply Hc | exact IH].
Qed.

Lemma adds_try_except {A} (m : M A) clauses (w : world) (ps : list (Z * Z)) :
  adds m w ps ->
  Forall (fun c => forall e, quiet (snd c e)) clauses ->
  adds (try_except m clauses) w ps.
Proof.
  unfold adds, try_except. intros Hm Hc.
  destruct (m w) as [[e|a] w']; cbn [snd] in *; [|exact Hm].
  now rewrite (quiet_handle clauses e Hc).
Qed.

Lemma adds_bind_quiet {A B} (m : M A) (k : A -> M B) (w : world) (ps : list (Z * Z)) :
  adds m w ps -> (forall a, quiet (k a)) -> adds (bind m k) w ps.
Proof.
  unfold adds, bind. intros Hm Hk.
  destruct (m w) as [[e|a] w']; cbn [snd] in *; [exact Hm|].
  now rewrite Hk.
Qed.

Lemma adds_bind_ok {A B} (m : M A) (k : A -> M B) (w w' : world) (a : A)
    (ps qs : list (Z * Z)) :
  m w = (inr a, w') ->
  progress_notifications (trace w') = progress_notifications (trace w) ++ ps ->
  adds (k a) w' qs ->
  adds (bind m k) w (ps ++ qs).
Proof.
  unfold adds, bind. intros -> Hw Hk. rewrite Hk, Hw. now rewrite app_assoc.
Qed.

Ltac quiet_step :=
  first [ apply quiet_ret | apply quiet_raise
        | apply quiet_emit_event; reflexivity
        | apply quiet_bind; [|intros ?] ].

Lemma quiet_logging (level : log_level) (msg : string) : quiet (logging level msg).
Proof. unfold logging. quiet_step. Qed.

Lemma quiet_get_fs : quiet get_fs.
Proof. now intros w. Qed.

Lemma quiet_set_fs (f : gmap string bytes) : quiet (set_fs f).
Proof. now intros w. Qed.

Lemma quiet_os_remove (path : string) : quiet (os_remove path).
Proof.
  unfold os_remove. quiet_step; [quiet_step|].
  apply quiet_bind; [apply quiet_get_fs|]. intros f.
  destruct (f !! path); [apply quiet_set_fs | apply quiet_raise].
Qed.

Lemma quiet_os_rename (env : environment) (src dst : string) : quiet (os_rename env src dst).
Proof.
  unfold os_rename. quiet_step; [quiet_step|].
  apply quiet_bind; [apply quiet_get_fs|]. intros f.
  destruct (f !! src); [|apply quiet_raise].
  destruct (os env), (f !! dst); first [apply quiet_set_fs | apply quiet_raise].
Qed.

Lemma quiet_install_update (env : environment) (script_path update_path : string) :
  quiet (install_update env script_path update_path).
Proof.
  unfold install_update.
  apply quiet_bind.
  - unfold os_path_exists. apply quiet_bind; [apply quiet_get_fs|].
    intros f. apply quiet_ret.
  - intros b. apply quiet_bind.
    + destruct b; [apply quiet_os_remove | apply quiet_ret].
    + intros _. apply quiet_bind; [apply quiet_os_rename|].
      intros _. apply quiet_os_rename.
Qed.

Lemma update_progress_run (env : environment) (start_time : option float)
    (downloaded total : Z) (w : world) :
  exists w',
    update_progress env start_time downloaded total w = (inr tt, w') /\
    progress_notifications (trace w') =
    progress_notifications (trace w) ++ [(downloaded, total)].
Proof.
  unfold update_progress, elapsed_time.
  destruct start_time as [s|]; [destruct (float_truthy s)|];
    (eexists; split; [reflexivity|]);
    cbn; rewrite progress_notifications_app; reflexivity.
Qed.

Lemma write_chunks_run (env : environment) (start_time : option float)
    (update_path : string) (file_size : Z) (cs : list bytes) :
  forall (downloaded_size : Z) (w : world),
  exists w',
    write_chunks (update_progress env start_time) update_path file_size
      downloaded_size cs w
    = (inr (downloaded_size + total_length cs)%Z, w') /\
    progress_notifications (trace w') =
    progress_notifications (trace w) ++
    map (fun d => (d, file_size)) (running_totals downloaded_size cs).
Proof.
  induction cs as [|chunk cs IH]; intros d w.
  - exists w. cbn. rewrite Z.add_0_r, app_nil_r. auto.
  - destruct chunk as [|b chunk].
    + cbn [write_chunks running_totals total_length fold_right length].
      destruct (IH d w) as (w' & E & P). exists w'. split; [|exact P].
      rewrite E. reflexivity.
    + cbn [write_chunks running_totals].
      set (d' := (d + Z.of_nat (length (b :: chunk)))%Z).
      set (w1 := snd (file_write update_path (b :: chunk) w)).
      assert (E1 : file_write update_path (b :: chunk) w = (inr tt, w1)) by reflexivity.
      assert (P1 : progress_notifications (trace w1) = progress_notifications (trace w)).
      { subst w1. cbn. rewrite progress_notifications_app. cbn. apply app_nil_r. }
      destruct (update_progress_run env start_time d' file_size w1) as (w2 & E2 & P2).
      destruct (IH d' w2) as (w' & E & P).
      exists w'. split.
      * erewrite bind_ok by exact E1. erewrite bind_ok by exact E2.
        rewrite E. f_equal. f_equal. subst d'. unfold total_length.
        cbn [fold_right]. fold (total_length cs). lia.
      * rewrite P, P2, P1. cbn [map]. now rewrite <- app_assoc.
Qed.

Lemma download_asset_adds (env : environment) (latest_version : string)
    (start_time : option float) (a : asset) (total : Z) (s : stream) (w : world) :
  size a = Some total -> total <> 0%Z ->
  download env (browser_download_url a) = inr s ->
  adds (download_asset env latest_version (update_progress env start_time) a) w
    ((0%Z, total) :: map (fun d => (d, total)) (running_totals 0 (chunks s))).
Proof.
  intros Hsize Hnz Hdl. unfold download_asset. rewrite Hsize. cbn [default from_option id].
  destruct (Z.eqb_spec total 0) as [|_]; [contradiction|].
  destruct (update_progress_run env start_time 0 total w) as (w1 & E1 & P1).
  change ((0%Z, total) :: ?l) with ([(0%Z, total)] ++ l).
  eapply adds_bind_ok; [exact E1 | exact P1 |].
  set (update_path := sys_executable env +:+ ".new").
  rewrite <- (app_nil_l (map _ _)).
  eapply adds_bind_ok with (w' := snd (open_wb update_path w1)); [reflexivity | |].
  { cbn. rewrite progress_notifications_app. reflexivity. }
  set (w2 := snd (open_wb update_path w1)).
  rewrite <- (app_nil_l (map _ _)).
  eapply adds_bind_ok with (a := s) (w' := add_events w2 _).
  { unfold requests_get_stream, bind. rewrite emit_event_run, Hdl. reflexivity. }
  { cbn. rewrite progress_notifications_app. reflexivity. }
  destruct (write_chunks_run env start_time update_path total (chunks s) 0
              (add_events w2 [Requests_get (browser_download_url a) (auth_headers env) true]))
    as (w3 & E3 & P3).
  rewrite <- (app_nil_r (map _ _)).
  eapply adds_bind_ok; [exact E3 | exact P3 |].
  unfold adds. rewrite app_nil_r.
  destruct (broken s); [reflexivity|].
  apply quiet_bind; [apply quiet_install_update|]. intros _.
  apply quiet_bind; [apply quiet_logging|]. intros _. apply quiet_ret.
Qed.

Lemma DownloadThread_run_adds (env : environment) (latest_version : string)
    (w : world) (response : release_json) (a : asset) (total : Z) (s : stream) :
  api env (release_tag_url latest_version) = inr response ->
  find_asset (default [] (assets response)) = Some a ->
  size a = Some total -> total <> 0%Z ->
  download env (browser_download_url a) = inr s ->
  adds (DownloadThread_run env latest_version) w
    ((0%Z, total) :: map (fun d => (d, total)) (running_totals 0 (chunks s))).
Proof.
  intros Hapi Hfind Hsize Hnz Hdl.
  unfold DownloadThread_run.
  apply adds_try_except.
  2: { repeat constructor. intros e. cbn [snd]. apply quiet_emit_event. reflexivity. }
  rewrite <- (app_nil_l (_ :: _)).
  eapply adds_bind_ok; [reflexivity | cbn; now rewrite app_nil_r |].
  apply adds_bind_quiet.
  2: { intros success. apply quiet_emit_event. reflexivity. }
  unfold download_update. apply adds_try_except.
  2: { repeat constructor; intros e; cbn [snd];
       (apply quiet_bind; [apply quiet_logging | intros _; apply quiet_raise]). }
  rewrite <- (app_nil_l (_ :: _)).
  eapply adds_bind_ok.
  { rewrite requests_get_json_run, Hapi. reflexivity. }
  { cbn. rewrite progress_notifications_app. reflexivity. }
  rewrite (find_and_download_found _ _ _ _ a Hfind).
  now apply download_asset_adds.
Qed.

(** What the running totals are. *)
Lemma running_totals_last (cs : list bytes) (d : Z) :
  List.last (d :: running_totals d cs) 0%Z = (d + total_length cs)%Z.
Proof.
  revert d. induction cs as [|chunk cs IH]; intros d.
  - cbn. lia.
  - destruct chunk as [|b chunk].
    + cbn [running_totals]. rewrite IH. reflexivity.
    + cbn [running_totals].
      change (List.last (d :: ?x :: ?l) 0%Z) with (List.last (x :: l) 0%Z).
      rewrite IH. unfold total_length. cbn [fold_right]. lia.
Qed.

Lemma running_totals_above (cs : list bytes) (d : Z) :
  Forall (fun x => (d < x)%Z) (running_totals d cs).
Proof.
  revert d. induction cs as [|chunk cs IH]; intros d; [constructor|].
  destruct chunk as [|b chunk]; cbn [running_totals]; [apply IH|].
  constructor.
  - cbn [length]. lia.
  - eapply List.Forall_impl; [|apply IH]. cbn [length]. intros x Hx. cbn beta in Hx. lia.
Qed.

Lemma running_totals_increasing (cs : list bytes) (d : Z) :
  StronglySorted Z.lt (d :: running_totals d cs).
Proof.
  revert d. induction cs as [|chunk cs IH]; intros d.
  - repeat constructor.
  - destruct chunk as [|b chunk]; cbn [running_totals]; [apply IH|].
    constructor; [apply IH|].
    apply (running_totals_above ((b :: chunk) :: cs) d).
Qed.

Lemma running_totals_length (cs : list bytes) (d : Z) :
  Forall (fun chunk => chunk <> []) cs ->
  length (running_totals d cs) = length cs.
Proof.
  intros H. revert d. induction H as [|chunk cs Hc _ IH]; intros d; [reflexivity|].
  destruct chunk; [contradiction|]. cbn [running_totals length]. now rewrite IH.
Qed.

Lemma increasing_nondecreasing (l : list Z) :
  StronglySorted Z.lt l -> StronglySorted Z.le l.
Proof.
  induction 1 as [|x l _ IH Hx]; constructor; [exact IH|].
  eapply List.Forall_impl; [|exact Hx]. intros y. cbn beta. lia.
Qed.

(** C2. When the asset named [SteamKM.exe] reports a size [total] other
    than 0 and the chunks of its body add up to [total], the progress
    signals [DownloadThread.run] emits carry the total [total] and the
    byte counts [0], then the size downloaded after each chunk that is not
    empty: the last count is [total], and the counts never decrease (they
    increase at every signal). When no chunk is empty there is one signal
    before the first chunk and one after each chunk. *)
Theorem progress_reaches_total_monotone (env : environment)
    (latest_version : string) (w : world) (response : release_json)
    (a : asset) (total : Z) (s : stream) :
  api env (release_tag_url latest_version) = inr response ->
  find_asset (default [] (assets response)) = Some a ->
  size a = Some total -> total <> 0%Z ->
  download env (browser_download_url a) = inr s ->
  total_length (chunks s) = total ->
  exists counts : list Z,
    progress_notifications (trace (snd (DownloadThread_run env latest_version w))) =
    progress_notifications (trace w) ++ map (fun d => (d, total)) counts /\
    List.last counts 0%Z = total /\
    counts <> [] /\
    StronglySorted Z.le counts /\
    StronglySorted Z.lt counts /\
    (Forall (fun chunk => chunk <> []) (chunks s) ->
     length counts = S (length (chunks s))).
Proof.
  intros Hapi Hfind Hsize Hnz Hdl Hsum.
  exists (0%Z :: running_totals 0 (chunks s)). repeat split.
  - apply (DownloadThread_run_adds env latest_version w response a total s); assumption.
  - rewrite running_totals_last. lia.
  - discriminate.
  - apply increasing_nondecreasing, running_totals_increasing.
  - apply running_totals_increasing.
  - intros Hne. cbn [length]. now rewrite running_totals_length.
Qed.

(** The release of the examples: [SteamKM.exe], 1,000 bytes, served in
    ten chunks of 100 bytes. *)
Definition release_1_3_0 : release_json :=
  {| tag_name := Some "1.3.0";
     assets := Some [{| name := Some "notes.txt";
                        browser_download_url := Some "https://example.org/notes.txt";
                        size := Some 12%Z |};
                     {| name := Some "SteamKM.exe";
                        browser_download_url := Some "https://example.org/SteamKM.exe";
                        size := Some 1000%Z |}] |}.

Definition ten_chunks : stream :=
  {| chunks := repeat (repeat x2a 100) 10; broken := None |}.

Definition thousand_bytes : environment := serving release_1_3_0 ten_chunks.

(** The theorem on that release. *)
Lemma progress_witness :
  exists counts : list Z,
    progress_notifications
      (trace (snd (DownloadThread_run thousand_bytes "1.3.0" staged_world))) =
    progress_notifications (trace staged_world) ++ map (fun d => (d, 1000%Z)) counts /\
    List.last counts 0%Z = 1000%Z /\
    counts <> [] /\
    StronglySorted Z.le counts /\
    StronglySorted Z.lt counts /\
    (Forall (fun chunk => chunk <> []) (chunks ten_chunks) ->
     length counts = S (length (chunks ten_chunks))).
Proof.
  exact (progress_reaches_total_monotone thousand_bytes "1.3.0" staged_world
           release_1_3_0 _ 1000%Z ten_chunks
           eq_refl eq_refl eq_refl ltac:(discriminate) eq_refl eq_refl).
Defined.

Lemma running_totals_uniform (n : nat) (cs : list bytes) (d : Z) :
  (0 < n)%nat ->
  Forall (fun chunk => length chunk = n) cs ->
  running_totals d cs =
  map (fun i => (d + Z.of_nat n * Z.of_nat i)%Z) (seq 1 (length cs)).
Proof.
  intros Hn H. revert d. induction H as [|chunk cs Hc _ IH]; intros d; [reflexivity|].
  destruct chunk as [|b chunk]; [cbn in Hc; lia|].
  cbn [running_totals]. rewrite Hc. cbn [length seq map]. f_equal; [lia|].
  rewrite IH. rewrite <- (seq_shift (length cs) 1), List.map_map.
  apply List.map_ext. intros i. lia.
Qed.

(** C3, as the code has it. A 1,000-byte asset delivered in ten chunks of
    100 bytes makes [DownloadThread.run] emit eleven progress signals:
    [(0, 1000)] before the first chunk, then one after each chunk, the
    last being [(1000, 1000)]. *)
Theorem thousand_bytes_in_hundreds (env : environment) (latest_version : string)
    (w : world) (response : release_json) (a : asset) (s : stream) :
  api env (release_tag_url latest_version) = inr response ->
  find_asset (default [] (assets response)) = Some a ->
  size a = Some 1000%Z ->
  download env (browser_download_url a) = inr s ->
  length (chunks s) = 10%nat ->
  Forall (fun chunk => length chunk = 100%nat) (chunks s) ->
  exists calls : list (Z * Z),
    progress_notifications (trace (snd (DownloadThread_run env latest_version w))) =
    progress_notifications (trace w) ++ calls /\
    calls = map (fun d => (d, 1000%Z))
              [0; 100; 200; 300; 400; 500; 600; 700; 800; 900; 1000]%Z /\
    length calls = 11%nat /\
    List.last calls (0, 0)%Z = (1000, 1000)%Z.
Proof.
  intros Hapi Hfind Hsize Hdl Hlen Hchunks.
  eexists. split; [|split; [reflexivity|split; reflexivity]].
  rewrite (DownloadThread_run_adds env latest_version w response a 1000%Z s)
    by (assumption || discriminate).
  f_equal. cbn [map]. f_equal.
  rewrite (running_totals_uniform 100 (chunks s) 0) by (lia || assumption).
  rewrite Hlen. reflexivity.
Qed.

(** The theorem on the release of the examples. *)
Lemma thousand_bytes_witness :
  exists calls : list (Z * Z),
    progress_notifications
      (trace (snd (DownloadThread_run thousand_bytes "1.3.0" staged_world))) =
    progress_notifications (trace staged_world) ++ calls /\
    calls = map (fun d => (d, 1000%Z))
              [0; 100; 200; 300; 400; 500; 600; 700; 800; 900; 1000]%Z /\
    length calls = 11%nat /\
    List.last calls (0, 0)%Z = (1000, 1000)%Z.
Proof.
  apply (thousand_bytes_in_hundreds thousand_bytes "1.3.0" staged_world
           release_1_3_0 _ ten_chunks eq_refl eq_refl eq_refl eq_refl eq_refl).
  vm_compute. repeat constructor.
Defined.

(** C3, as the specification has it, fails on the release of the
    examples: the progress signals are not ten. *)
Lemma ten_progress_calls_refuted :
  let calls :=
    progress_notifications
      (trace (snd (DownloadThread_run thousand_bytes "1.3.0" staged_world))) in
  ~ (length calls = 10%nat /\ List.last calls (0, 0)%Z = (1000, 1000)%Z).
Proof.
  vm_compute. intros [H _]. discriminate H.
Qed.

(** ** A download that succeeds, end to end *)

(** The trace only grows. *)
Definition extends (w w' : world) : Prop :=
  exists evs, trace w' = trace w ++ evs.

Lemma extends_refl (w : world) : extends w w.
Proof. exists []. now rewrite app_nil_r. Qed.

Lemma extends_trans (w1 w2 w3 : world) :
  extends w1 w2 -> extends w2 w3 -> extends w1 w3.
Proof.
  intros (xs & E1) (ys & E2). exists (xs ++ ys). now rewrite E2, E1, app_assoc.
Qed.

Lemma extends_add_events (w : world) (evs : list event) : extends w (add_events w evs).
Proof. now exists evs. Qed.

Lemma update_progress_fs (env : environment) (start_time : option float)
    (downloaded total : Z) (w : world) :
  exists w', update_progress env start_time downloaded total w = (inr tt, w') /\
             fs w' = fs w /\ extends w w'.
Proof.
  unfold update_progress, elapsed_time.
  destruct start_time as [s|]; [destruct (float_truthy s)|];
    (eexists; split; [reflexivity|]; split; [reflexivity|]; eexists; reflexivity).
Qed.

Lemma write_chunks_fs (env : environment) (start_time : option float)
    (update_path : string) (file_size : Z) (cs : list bytes) :
  forall (downloaded_size : Z) (w : world) (written : bytes),
  fs w !! update_path = Some written ->
  exists w' n,
    write_chunks (update_progress env start_time) update_path file_size
      downloaded_size cs w = (inr n, w') /\
    fs w' = <[update_path := written ++ concat cs]> (fs w) /\
    extends w w'.
Proof.
  induction cs as [|chunk cs IH]; intros d w written Hw.
  - exists w, d. split; [reflexivity|]. split; [|apply extends_refl]. cbn [concat].
    rewrite app_nil_r. symmetry. now apply insert_id.
  - destruct chunk as [|b chunk].
    + cbn [write_chunks concat app]. now apply IH.
    + cbn [write_chunks].
      set (d' := (d + Z.of_nat (length (b :: chunk)))%Z).
      set (w1 := snd (file_write update_path (b :: chunk) w)).
      assert (E1 : file_write update_path (b :: chunk) w = (inr tt, w1)) by reflexivity.
      assert (F1 : fs w1 = <[update_path := written ++ b :: chunk]> (fs w)).
      { subst w1. cbv [file_write bind emit_event get_fs set_fs snd].
        cbn [fs]. now rewrite Hw. }
      assert (X1 : extends w w1) by (eexists; reflexivity).
      destruct (update_progress_fs env start_time d' file_size w1) as (w2 & E2 & F2 & X2).
      destruct (IH d' w2 (written ++ b :: chunk)) as (w' & n & E & F & X).
      { rewrite F2, F1. apply lookup_insert_eq. }
      exists w', n. split; [|split].
      * erewrite bind_ok by exact E1. erewrite bind_ok by exact E2. exact E.
      * rewrite F, F2, F1. rewrite insert_insert_eq.
        cbn [concat]. now rewrite <- app_assoc.
      * eauto using extends_trans.
Qed.

(** When the release has the asset, its size is not 0, its body arrives
    whole and the running binary [R] is in place, [DownloadThread.run]
    ends with [finished_signal(True)]; the body is then at the executable
    path, [R] at the [.bak] path, nothing at the [.new] path, and every
    other file is as it was. *)
Lemma download_then_install (env : environment) (latest_version : string)
    (w : world) (response : release_json) (a : asset) (total : Z)
    (s : stream) (R : bytes) :
  api env (release_tag_url latest_version) = inr response ->
  find_asset (default [] (assets response)) = Some a ->
  size a = Some total -> total <> 0%Z ->
  download env (browser_download_url a) = inr s ->
  broken s = None ->
  fs w !! sys_executable env = Some R ->
  exists w' evs,
    DownloadThread_run env latest_version w = (inr tt, w') /\
    trace w' = trace w ++ evs ++ [Emit (finished_signal true)] /\
    fs w' !! sys_executable env = Some (concat (chunks s)) /\
    fs w' !! (sys_executable env +:+ ".bak") = Some R /\
    fs w' !! (sys_executable env +:+ ".new") = None /\
    (forall p, p <> sys_executable env -> p <> sys_executable env +:+ ".new" ->
               p <> sys_executable env +:+ ".bak" -> fs w' !! p = fs w !! p).
Proof.
  intros Hapi Hfind Hsize Hnz Hdl Hwhole HR.
  destruct (install_paths_distinct (sys_executable env)) as (Hbs & Hns & Hnb).
  set (script_path := sys_executable env) in *.
  set (new := script_path +:+ ".new") in *.
  set (w0 := snd (time env w)).
  set (start_time := Some (clock env (ticks w))).
  (* the request for the release *)
  set (w1 := add_events w0
               [Requests_get (Some (release_tag_url latest_version)) (auth_headers env) false]).
  (* the first progress call, the file opened, the request for the body *)
  destruct (update_progress_fs env start_time 0 total w1) as (w2 & E2 & F2 & X2).
  set (w3 := snd (open_wb new w2)).
  set (w4 := add_events w3 [Requests_get (browser_download_url a) (auth_headers env) true]).
  assert (F4 : fs w4 = <[new := []]> (fs w)).
  { subst w4 w3. cbn. rewrite F2. reflexivity. }
  destruct (write_chunks_fs env start_time new total (chunks s) 0 w4 [])
    as (w5 & n & E5 & F5 & X5).
  { rewrite F4. apply lookup_insert_eq. }
  rewrite F4, insert_insert_eq in F5. cbn [app] in F5.
  (* the install step *)
  pose proof (install_update_run env w5 script_path R (concat (chunks s))) as E6.
  rewrite F5 in E6. fold new in E6.
  rewrite lookup_insert_ne in E6 by exact Hns.
  rewrite lookup_insert_eq in E6.
  specialize (E6 HR eq_refl).
  set (w6 := {| fs := installed script_path R (concat (chunks s))
                        (<[new := concat (chunks s)]> (fs w));
                ticks := ticks w5;
                trace := trace w5 ++ install_events script_path
                  (bool_decide (is_Some (<[new := concat (chunks s)]> (fs w)
                                           !! (script_path +:+ ".bak")))) |}) in *.
  set (w7 := add_events w6
               [Logging INFO ("Update to version " +:+ latest_version +:+ " successful.")]).
  assert (D : download_update env latest_version (update_progress env start_time) w0
              = (inr true, w7)).
  { unfold download_update. apply try_except_ok.
    erewrite bind_ok by (rewrite requests_get_json_run, Hapi; reflexivity).
    rewrite (find_and_download_found _ _ _ _ a Hfind).
    unfold download_asset. rewrite Hsize. cbn [default from_option id].
    destruct (Z.eqb_spec total 0) as [|_]; [contradiction|].
    fold script_path new w1.
    erewrite bind_ok by exact E2.
    erewrite bind_ok by reflexivity. fold w3.
    erewrite bind_ok
      by (unfold requests_get_stream, bind; rewrite emit_event_run, Hdl; reflexivity).
    fold w4. erewrite bind_ok by exact E5.
    rewrite Hwhole.
    erewrite bind_ok by exact E6.
    erewrite bind_ok by apply logging_run. reflexivity. }
  exists (add_events w7 [Emit (finished_signal true)]).
  assert (T : extends w w7).
  { apply (extends_trans w w1); [eexists; reflexivity|].
    apply (extends_trans w1 w2 _ X2).
    apply (extends_trans w2 w4); [eexists; cbn; now rewrite <- app_assoc|].
    apply (extends_trans w4 w5 _ X5).
    eexists. cbn. now rewrite <- app_assoc. }
  destruct T as (evs & T).
  exists evs. split; [|split].
  - unfold DownloadThread_run. apply try_except_ok.
    erewrite bind_ok by reflexivity. fold w0 start_time.
    erewrite bind_ok by exact D. apply emit_event_run.
  - cbn [add_events trace]. rewrite T. now rewrite <- app_assoc.
  - cbn [add_events fs w7 w6]. rewrite !installed_lookup.
    repeat split.
    + now destruct (decide _).
    + destruct (decide _) as [E|_]; [contradiction|].
      destruct (decide _) as [E|_]; [symmetry in E; contradiction|].
      now destruct (decide _).
    + destruct (decide _) as [E|_]; [contradiction|].
      now destruct (decide _).
    + intros p H1 H2 H3. rewrite installed_lookup.
      repeat (destruct (decide _); [contradiction|]).
      now rewrite lookup_insert_ne by congruence.
Qed.

(** The scenario of the specification, end to end. The running build is
    ["1.2.0"] and the feed's latest release is ["1.3.0"]: the checker
    reports an update. *)
Example scenario_update_available :
  UpdateCheckThread_run "1.2.0" thousand_bytes staged_world =
  (inr tt,
   add_events staged_world
     [Requests_get (Some latest_release_url) [] false;
      Logging DEBUG "Latest version from GitHub: 1.3.0";
      Emit (update_available true)]).
Proof. vm_compute. reflexivity. Qed.

(** The worker then downloads the 1,000 bytes and installs them: the old
    binary is the backup, the new content is at the executable path. *)
Example scenario_download_and_install :
  exists w' evs,
    DownloadThread_run thousand_bytes "1.3.0" staged_world = (inr tt, w') /\
    trace w' = evs ++ [Emit (finished_signal true)] /\
    fs w' !! exe = Some (repeat x2a 1000) /\
    fs w' !! (exe +:+ ".bak") = Some [x4f; x4c; x44] /\
    fs w' !! (exe +:+ ".new") = None.
Proof.
  destruct (download_then_install thousand_bytes "1.3.0" staged_world
              release_1_3_0 _ 1000%Z ten_chunks [x4f; x4c; x44]
              eq_refl eq_refl eq_refl ltac:(discriminate) eq_refl eq_refl eq_refl)
    as (w' & evs & E & T & F1 & F2 & F3 & _).
  exists w', evs. repeat split; assumption.
Qed.

(** ** Speed and estimated time *)

Lemma float_gt_zero_cases (x : float) :
  PrimFloat.ltb 0 x = true ->
  Prim2SF x = S754_infinity false \/ exists m e, Prim2SF x = S754_finite false m e.
Proof.
  rewrite ltb_spec. change (Prim2SF 0) with (S754_zero false).
  unfold SFltb, SFcompare.
  destruct (Prim2SF x) as [s|s| |s m e]; try discriminate;
    destruct s; try discriminate; eauto.
Qed.

Lemma float_zero_div (x : float) :
  PrimFloat.ltb 0 x = true -> (0 / x)%float = 0%float.
Proof.
  intros H. apply Prim2SF_inj. rewrite div_spec.
  change (Prim2SF 0) with (S754_zero false).
  destruct (float_gt_zero_cases x H) as [-> | (m & e & ->)]; reflexivity.
Qed.




(** ** The configuration loader *)

(** A stand-in for [json.loads] that knows three documents. *)
Definition toy_json_loads (text : string) : exn + json :=
  if String.eqb text "{}" then inr (JDict [])
  else if String.eqb text "[1, 2]" then inr (JList [JInt 1; JInt 2])
  else if String.eqb text "null" then inr JNull
  else inl (JSONDecodeError "Expecting value: line 1 column 1 (char 0)").

(** C10, as the specification has it, fails on a file whose bytes are no
    text: [read_text()] raises [UnicodeDecodeError], the [except] clause
    names [json.JSONDecodeError] only, and [load_config] raises. *)
Lemma load_config_raises_on_unreadable_file :
  let e := UnicodeDecodeError
             "'utf-8' codec can't decode byte 0xff in position 0: invalid start byte" in
  load_config toy_json_loads (Present (inl e)) = inl e /\
  ~ (exists value, load_config toy_json_loads (Present (inl e)) = inr value).
Proof.
  split; [reflexivity|]. intros [value H]. discriminate H.
Qed.

(** C10, as the code has it. [load_config] returns the empty dict when
    there is no file at [CONFIG_FILE_PATH], and when there is one whose
    text [json.loads] rejects with [JSONDecodeError]; it returns the
    parsed value when [json.loads] accepts the text. An exception of
    another class, raised by [read_text()] or by [json.loads], is not
    caught: [load_config] raises it, and raises nothing else. So on a
    file that reads as text, [json.loads] raising nothing but
    [JSONDecodeError], [load_config] returns. *)
Theorem load_config_returns_or_propagates (json_loads : string -> exn + json)
    (config_file : path_state) :
  (config_file = Absent -> load_config json_loads config_file = inr (JDict [])) /\
  (forall text msg,
     config_file = Present (inr text) ->
     json_loads text = inl (JSONDecodeError msg) ->
     load_config json_loads config_file = inr (JDict [])) /\
  (forall text value,
     config_file = Present (inr text) -> json_loads text = inr value ->
     load_config json_loads config_file = inr value) /\
  (forall e,
     load_config json_loads config_file = inl e <->
     is_JSONDecodeError e = false /\
     (config_file = Present (inl e) \/
      exists text, config_file = Present (inr text) /\ json_loads text = inl e)) /\
  ((forall text e, json_loads text = inl e -> is_JSONDecodeError e = true) ->
   forall o, config_file = match o with None => Absent | Some text => Present (inr text) end ->
   exists value, load_config json_loads config_file = inr value).
Proof.
  split; [|split; [|split; [|split]]].
  - now intros ->.
  - intros text msg -> H. cbn. now rewrite H.
  - intros text value -> H. cbn. now rewrite H.
  - intros e. split.
    + destruct config_file as [|[e'|text]]; cbn; [discriminate| |].
      * destruct (is_JSONDecodeError e') eqn:C; [discriminate|].
        intros [= <-]. auto.
      * destruct (json_loads text) as [e'|value] eqn:L; [|discriminate].
        destruct (is_JSONDecodeError e') eqn:C; [discriminate|].
        intros [= <-]. eauto.
    + intros (C & [-> | (text & -> & L)]); cbn.
      * now rewrite C.
      * now rewrite L, C.
  - intros Hloads [text|] ->; cbn; [|eauto].
    destruct (json_loads text) as [e|value] eqn:H; [|eauto].
    rewrite (Hloads text e H). eauto.
Qed.

(** The theorem with no file, with a file that is not JSON, and with a
    file that is. *)
Lemma load_config_witness :
  load_config toy_json_loads Absent = inr (JDict []) /\
  load_config toy_json_loads (Present (inr "{oops")) = inr (JDict []) /\
  load_config toy_json_loads (Present (inr "[1, 2]")) = inr (JList [JInt 1; JInt 2]).
Proof.
  split; [|split].
  - exact (proj1 (load_config_returns_or_propagates toy_json_loads Absent) eq_refl).
  - exact (proj1 (proj2 (load_config_returns_or_propagates toy_json_loads (Present (inr "{oops"))))
             "{oops" _ eq_refl eq_refl).
  - exact (proj1 (proj2 (proj2 (load_config_returns_or_propagates toy_json_loads (Present (inr "[1, 2]")))))
             "[1, 2]" _ eq_refl eq_refl).
Defined.

(** * Further properties of the two modules *)

(** ** What the update check reports *)

(** The feed has a release whose tag parses and is greater than the
    running build, which parses too. *)
Definition newer_release (CURRENT_BUILD : string) (env : environment) : Prop :=
  exists response latest current,
    api env latest_release_url = inr response /\
    parse (latest_version_of response) = Some latest /\
    parse CURRENT_BUILD = Some current /\
    version_gt latest current = true.

Definition is_signal (ev : event) : bool :=
  match ev with Emit _ => true | _ => false end.

Lemma check_raises_not_newer (CURRENT_BUILD : string) (env : environment) (e : exn) :
  check_raises CURRENT_BUILD env e -> ~ newer_release CURRENT_BUILD env.
Proof.
  intros H (response & latest & current & Hapi & Hl & Hc & _).
  apply parse_Some in Hl, Hc.
  destruct H as [msg Hapi' | r Hapi' Hl' | r l Hapi' Hl' Hc']; congruence.
Qed.

(** X1. When [UpdateCheckThread.run] returns it has emitted one signal,
    the last event of the run: [update_available(True)] exactly when the
    feed has a release whose tag parses and is greater than the running
    build; the "Update Error" box is shown exactly when the fetch or the
    comparison raised an exception that [check_for_updates] catches. The
    run does not return, and emits no signal, when [int] refuses a number
    of the tag or of the running build: [run] has no handler of its own
    for the [ValueError] that [check_for_updates] lets through. *)
Theorem update_available_iff_newer (CURRENT_BUILD : string) (env : environment)
    (w : world) :
  (exists (available : bool) (evs : list event),
     UpdateCheckThread_run CURRENT_BUILD env w =
     (inr tt, add_events w (evs ++ [Emit (update_available available)])) /\
     Forall (fun ev => is_signal ev = false) evs /\
     (available = true <-> newer_release CURRENT_BUILD env) /\
     ((exists text, In (QMessageBox_critical "Update Error" text) evs) <->
      exists e, check_raises CURRENT_BUILD env e)) \/
  (exists (e : exn) (evs : list event),
     UpdateCheckThread_run CURRENT_BUILD env w = (inl e, add_events w evs) /\
     Forall (fun ev => is_signal ev = false) evs /\
     check_lets_through CURRENT_BUILD env e).
Proof.
  destruct (check_outcome_cases CURRENT_BUILD env)
    as [e H | e H | response latest current Hapi Hlatest Hcur].
  - left.
    destruct (check_for_updates_error CURRENT_BUILD env w e H) as (debug & Hd & E).
    exists false. eexists. split; [|split; [|split]].
    + unfold UpdateCheckThread_run, bind. rewrite E, String.eqb_refl. cbn [negb].
      rewrite emit_event_run, add_events_app. reflexivity.
    + constructor; [reflexivity|]. apply Forall_app. split.
      * eapply List.Forall_impl; [|exact Hd]. intros ev (msg & ->). reflexivity.
      * repeat constructor.
    + split; [discriminate|]. intros N.
      exfalso. exact (check_raises_not_newer _ _ e H N).
    + split; [eauto|]. intros _. eexists. right.
      apply in_or_app. right. right. left. reflexivity.
  - right.
    destruct (check_for_updates_escapes CURRENT_BUILD env w e H) as (response & _ & E).
    exists e. eexists. split; [|split; [|exact H]].
    + unfold UpdateCheckThread_run, bind. rewrite E. reflexivity.
    + repeat constructor.
  - left.
    pose proof (check_for_updates_ok CURRENT_BUILD env w response latest current
                  Hapi Hlatest Hcur) as E.
    exists (version_gt latest current). eexists. split; [|split; [|split]].
    + unfold UpdateCheckThread_run, bind. rewrite E.
      rewrite emit_event_run, add_events_app.
      destruct (version_gt latest current) eqn:G.
      * destruct (String.eqb_spec (latest_version_of response) CURRENT_BUILD) as [S|_].
        -- rewrite S in Hlatest. rewrite Hlatest in Hcur. injection Hcur as ->.
           rewrite version_gt_irrefl in G. discriminate.
        -- reflexivity.
      * rewrite String.eqb_refl. reflexivity.
    + repeat constructor.
    + split.
      * intros G. exists response, latest, current. auto.
      * intros (r & l & c & Hapi' & Hl & Hc & G).
        rewrite Hapi in Hapi'. injection Hapi' as <-.
        rewrite Hlatest in Hl. injection Hl as <-.
        rewrite Hcur in Hc. injection Hc as <-. exact G.
    + split.
      * intros (text & [H|[H|[]]]); discriminate H.
      * intros (e & H). exfalso. apply parse_Some in Hlatest, Hcur.
        destruct H as [msg Hapi' | r Hapi' Hl' | r l Hapi' Hl' Hc']; congruence.
Qed.

(** ** Pre-releases and the [v] of a tag *)

(** The same release segment up to trailing zeros, under the same epoch. *)
Definition same_release (v w : _Version) : Prop :=
  epoch v = epoch w /\
  strip_trailing_zeros (release v) = strip_trailing_zeros (release w).

(** A final release: the release segment only, as in ["1.3.0"]. *)
Definition is_final (v : _Version) : Prop :=
  pre v = None /\ post v = None /\ dev v = None /\ local v = None.

(** A version that comes before its final release: an alpha, beta or
    release candidate, or a development release, as in ["1.3.0rc1"] and
    ["1.3.0.dev2"]. *)
Definition is_prerelease (v : _Version) : Prop :=
  post v = None /\ (pre v <> None \/ dev v <> None).

Lemma prerelease_below_final (v w : _Version) :
  same_release v w -> is_prerelease v -> is_final w ->
  version_gt w v = true /\ version_gt v w = false.
Proof.
  intros [He Hr] [Hpost Hpd] (Wpre & Wpost & Wdev & Wloc).
  assert (G : version_gt w v = true).
  { unfold version_gt, _key, _cmpkey. rewrite He, Hr, Hpost, Wpre, Wpost, Wdev.
    cbn [py_gt py_eq PyCmp_pair fst snd].
    rewrite !py_eq_refl.
    destruct (pre v) as [p|], (dev v) as [d|];
      try (exfalso; destruct Hpd; congruence); reflexivity. }
  split; [exact G|]. now apply version_gt_asym.
Qed.

(** X2. A tag that is a pre-release (alpha, beta, release candidate or
    development release) of the final release the user runs is not
    reported as an update, and the final release is reported to a user who
    runs one of its pre-releases. *)
Theorem prerelease_tag_not_offered (CURRENT_BUILD : string) (env : environment)
    (w : world) (response : release_json) (latest current : _Version) :
  api env latest_release_url = inr response ->
  parse (latest_version_of response) = Some latest ->
  parse CURRENT_BUILD = Some current ->
  same_release latest current ->
  (is_prerelease latest -> is_final current ->
   fst (check_for_updates CURRENT_BUILD env w) = inr CURRENT_BUILD) /\
  (is_final latest -> is_prerelease current ->
   fst (check_for_updates CURRENT_BUILD env w) = inr (latest_version_of response)).
Proof.
  intros Hapi Hlatest Hcur Hs.
  rewrite (check_for_updates_ok _ _ _ _ _ _ Hapi Hlatest Hcur). cbn [fst].
  split; intros H1 H2.
  - now rewrite (proj2 (prerelease_below_final latest current Hs H1 H2)).
  - destruct Hs as [He Hr].
    assert (Hs' : same_release current latest) by (split; congruence).
    now rewrite (proj1 (prerelease_below_final current latest Hs' H2 H1)).
Qed.

Definition release_candidate : release_json :=
  {| tag_name := Some "1.3.0rc1"; assets := Some [] |}.

Definition final_release : release_json :=
  {| tag_name := Some "1.3"; assets := Some [] |}.

(** The theorem on the final ["1.3.0"] offered ["1.3.0rc1"], and on
    ["1.3.0.dev2"] offered ["1.3"]. *)
Lemma prerelease_tag_witness :
  fst (check_for_updates "1.3.0" (serving release_candidate no_body) empty_world)
  = inr "1.3.0" /\
  fst (check_for_updates "1.3.0.dev2" (serving final_release no_body) empty_world)
  = inr "1.3".
Proof.
  split.
  - refine (proj1 (prerelease_tag_not_offered "1.3.0" (serving release_candidate no_body)
                     empty_world release_candidate _ _ eq_refl eq_refl eq_refl _) _ _).
    + split; reflexivity.
    + split; [reflexivity|]. left. discriminate.
    + repeat split.
  - refine (proj2 (prerelease_tag_not_offered "1.3.0.dev2" (serving final_release no_body)
                     empty_world final_release _ _ eq_refl eq_refl eq_refl _) _ _).
    + split; reflexivity.
    + repeat split.
    + split; [reflexivity|]. right. discriminate.
Defined.

Lemma skip_v_digit (v c : ascii) (s : string) :
  Ascii.eqb (lower_char v) "v" = true -> is_digit c = true ->
  skip_v (skip_spaces (String v (String c s))) = skip_v (skip_spaces (String c s)).
Proof.
  intros Hv Hc. destruct (digit_facts c Hc) as (Hsp & Hcv & _).
  assert (Hvs : is_space v = false).
  { destruct v as [[] [] [] [] [] [] [] []]; vm_compute in Hv; try discriminate;
      reflexivity. }
  cbn [skip_spaces]. rewrite Hvs, Hsp. cbn [skip_v]. now rewrite Hv, Hcv.
Qed.

Lemma Version_v_prefix (v c : ascii) (s : string) :
  Ascii.eqb (lower_char v) "v" = true -> is_digit c = true ->
  Version (String v (String c s)) = Version (String c s).
Proof.
  intros Hv Hc. unfold Version, regex_search.
  now rewrite (skip_v_digit v c s Hv Hc).
Qed.

(** X3. A tag with a leading [v] or [V] before a digit, as in ["v1.3.0"],
    is compared as the tag without it; when it is the greater, it is
    returned as fetched, with the letter. When what follows the letter is
    no version the running build is returned, and when [int] refuses one
    of its numbers the [ValueError] passes through. *)
Theorem v_prefixed_tag_compared_without_v (CURRENT_BUILD : string)
    (env : environment) (w : world) (response : release_json)
    (v c : ascii) (s : string) (current : _Version) :
  api env latest_release_url = inr response ->
  tag_name response = Some (String v (String c s)) ->
  Ascii.eqb (lower_char v) "v" = true -> is_digit c = true ->
  parse CURRENT_BUILD = Some current ->
  fst (check_for_updates CURRENT_BUILD env w) =
  match Version (String c s) with
  | Parsed latest =>
      inr (if version_gt latest current then String v (String c s) else CURRENT_BUILD)
  | NotAVersion => inr CURRENT_BUILD
  | IntTooLong digits => inl (ValueError (int_limit_message digits))
  end.
Proof.
  intros Hapi Htag Hv Hc Hcur.
  assert (T : latest_version_of response = String v (String c s)).
  { unfold latest_version_of. now rewrite Htag. }
  pose proof (Version_v_prefix v c s Hv Hc) as P. rewrite <- T in P.
  destruct (Version (String c s)) as [latest| |digits] eqn:E.
  - rewrite (check_for_updates_ok _ _ _ _ _ _ Hapi (parse_Parsed _ _ P) Hcur).
    cbn [fst]. now rewrite T.
  - destruct (check_for_updates_error CURRENT_BUILD env w _
                (latest_invalid _ _ response Hapi P)) as (debug & _ & R).
    now rewrite R.
  - destruct (check_for_updates_escapes CURRENT_BUILD env w _
                (latest_too_long _ _ response digits Hapi P)) as (r & _ & R).
    now rewrite R.
Qed.

Definition v_tagged : release_json :=
  {| tag_name := Some "v1.10.0"; assets := Some [] |}.

(** The theorem on the tag ["v1.10.0"], read by the build ["1.9.9"]. *)
Lemma v_prefixed_tag_witness :
  fst (check_for_updates "1.9.9" (serving v_tagged no_body) empty_world) =
  inr "v1.10.0".
Proof.
  exact (v_prefixed_tag_compared_without_v "1.9.9" (serving v_tagged no_body)
           empty_world v_tagged "v" "1" ".10.0" _ eq_refl eq_refl eq_refl eq_refl
           eq_refl).
Defined.

(** ** Every way a download ends *)

(** An event other than the two signals that end a run of the worker. *)
Definition nonterminal (ev : event) : Prop :=
  match ev with
  | Emit (finished_signal _) | Emit (error_signal _) => False
  | _ => True
  end.

(** The trace grows by events that end no run. *)
Definition calmly (w w' : world) : Prop :=
  exists evs, trace w' = trace w ++ evs /\ Forall nonterminal evs.

Lemma calmly_refl (w : world) : calmly w w.
Proof. exists []. split; [now rewrite app_nil_r | constructor]. Qed.

Lemma calmly_trans (w1 w2 w3 : world) :
  calmly w1 w2 -> calmly w2 w3 -> calmly w1 w3.
Proof.
  intros (xs & E1 & H1) (ys & E2 & H2). exists (xs ++ ys). split.
  - now rewrite E2, E1, app_assoc.
  - apply Forall_app. now split.
Qed.

Lemma calmly_add_events (w : world) (evs : list event) :
  Forall nonterminal evs -> calmly w (add_events w evs).
Proof. intros H. now exists evs. Qed.

Lemma update_progress_calm (env : environment) (start_time : option float)
    (downloaded total : Z) (w : world) :
  exists w', update_progress env start_time downloaded total w = (inr tt, w') /\
             fs w' = fs w /\ calmly w w'.
Proof.
  unfold update_progress, elapsed_time.
  destruct start_time as [s|]; [destruct (float_truthy s)|];
    (eexists; split; [reflexivity|]; split; [reflexivity|];
     eexists; split; [reflexivity|]; repeat constructor).
Qed.

Lemma write_chunks_calm (env : environment) (start_time : option float)
    (update_path : string) (file_size : Z) (cs : list bytes) :
  forall (downloaded_size : Z) (w : world) (written : bytes),
  fs w !! update_path = Some written ->
  exists w' n,
    write_chunks (update_progress env start_time) update_path file_size
      downloaded_size cs w = (inr n, w') /\
    fs w' = <[update_path := written ++ concat cs]> (fs w) /\
    calmly w w'.
Proof.
  induction cs as [|chunk cs IH]; intros d w written Hw.
  - exists w, d. split; [reflexivity|]. split; [|apply calmly_refl]. cbn [concat].
    rewrite app_nil_r. symmetry. now apply insert_id.
  - destruct chunk as [|b chunk].
    + cbn [write_chunks concat app]. now apply IH.
    + cbn [write_chunks].
      set (d' := (d + Z.of_nat (length (b :: chunk)))%Z).
      set (w1 := snd (file_write update_path (b :: chunk) w)).
      assert (E1 : file_write update_path (b :: chunk) w = (inr tt, w1)) by reflexivity.
      assert (F1 : fs w1 = <[update_path := written ++ b :: chunk]> (fs w)).
      { subst w1. cbv [file_write bind emit_event get_fs set_fs snd].
        cbn [fs]. now rewrite Hw. }
      assert (X1 : calmly w w1).
      { eexists. split; [reflexivity|]. repeat constructor. }
      destruct (update_progress_calm env start_time d' file_size w1) as (w2 & E2 & F2 & X2).
      destruct (IH d' w2 (written ++ b :: chunk)) as (w' & n & E & F & X).
      { rewrite F2, F1. apply lookup_insert_eq. }
      exists w', n. split; [|split].
      * erewrite bind_ok by exact E1. erewrite bind_ok by exact E2. exact E.
      * rewrite F, F2, F1. rewrite insert_insert_eq.
        cbn [concat]. now rewrite <- app_assoc.
      * eauto using calmly_trans.
Qed.

Lemma os_rename_missing (env : environment) (src dst : string) (w : world) :
  fs w !! src = None ->
  os_rename env src dst w = (inl (FileNotFoundError src), add_events w [Os_rename src dst]).
Proof.
  intros H. unfold os_rename, bind, get_fs. rewrite emit_event_run.
  cbn [add_events fs]. now rewrite H.
Qed.

(** The install step when nothing is at the executable path: the old
    backup is removed all the same, and the first rename raises. *)
Lemma install_update_missing (env : environment) (w : world) (script_path : string) :
  fs w !! script_path = None ->
  exists w',
    install_update env script_path (script_path +:+ ".new") w =
    (inl (FileNotFoundError script_path), w') /\
    fs w' = delete (script_path +:+ ".bak") (fs w) /\
    calmly w w'.
Proof.
  intros HR. unfold install_update.
  set (bak := script_path +:+ ".bak"). set (new := script_path +:+ ".new").
  destruct (install_paths_distinct script_path) as (Hbs & Hns & Hnb). fold bak in Hbs.
  assert (Step1 : exists w1,
    bind (os_path_exists bak)
      (fun backup_exists => if backup_exists then os_remove bak else ret tt) w
    = (inr tt, w1) /\ fs w1 = delete bak (fs w) /\ calmly w w1).
  { unfold bind, os_path_exists, bind, get_fs, ret.
    destruct (fs w !! bak) as [old|] eqn:Hbak.
    - rewrite bool_decide_eq_true_2 by eauto.
      unfold os_remove, bind, get_fs, set_fs. rewrite emit_event_run.
      cbn [add_events fs ticks trace]. rewrite Hbak.
      eexists. split; [reflexivity|]. split; [reflexivity|].
      eexists. split; [reflexivity|]. repeat constructor.
    - rewrite bool_decide_eq_false_2 by (intros [? ?]; discriminate).
      exists w. split; [reflexivity|]. split; [now rewrite delete_id|apply calmly_refl]. }
  destruct Step1 as (w1 & E1 & F1 & X1).
  change (bind (os_path_exists bak) _ w) with
    (bind (bind (os_path_exists bak)
             (fun backup_exists => if backup_exists then os_remove bak else ret tt))
          (fun _ => os_rename env script_path bak ;; os_rename env new script_path) w).
  erewrite bind_ok by exact E1.
  erewrite bind_raise.
  2: { apply os_rename_missing. rewrite F1.
       rewrite lookup_delete_ne by exact Hbs. exact HR. }
  eexists. split; [reflexivity|]. split; [exact F1|].
  apply (calmly_trans _ _ _ X1). apply calmly_add_events. repeat constructor.
Qed.

Lemma install_update_calm (env : environment) (w : world)
    (script_path : string) (R N : bytes) :
  fs w !! script_path = Some R ->
  fs w !! (script_path +:+ ".new") = Some N ->
  exists w',
    install_update env script_path (script_path +:+ ".new") w = (inr tt, w') /\
    fs w' = installed script_path R N (fs w) /\
    calmly w w'.
Proof.
  intros HR HN. eexists. split; [exact (install_update_run env w script_path R N HR HN)|].
  split; [reflexivity|].
  eexists. split; [reflexivity|]. unfold install_events.
  destruct (bool_decide _); repeat constructor.
Qed.

(** What the loop body of [download_update] comes to, as a function of
    the files [f] it starts from: the value returned or the exception
    raised, and the files left. *)
Definition asset_outcome (env : environment) (a : asset) (f : gmap string bytes)
  : (exn + bool) * gmap string bytes :=
  let script_path := sys_executable env in
  let update_path := script_path +:+ ".new" in
  if (default 0%Z (size a) =? 0)%Z
  then (inl (Exception "Failed to get file size."), f)
  else
    match download env (browser_download_url a) with
    | inl msg => (inl (RequestException msg), <[update_path := []]> f)
    | inr r =>
        let body := concat (chunks r) in
        match broken r with
        | Some msg => (inl (RequestException msg), <[update_path := body]> f)
        | None =>
            match f !! script_path with
            | Some R =>
                (inr true, installed script_path R body (<[update_path := body]> f))
            | None =>
                (inl (FileNotFoundError script_path),
                 delete (script_path +:+ ".bak") (<[update_path := body]> f))
            end
        end
    end.

(** The same for [download_update]. *)
Definition download_outcome (env : environment) (latest_version : string)
    (f : gmap string bytes) : (exn + bool) * gmap string bytes :=
  match api env (release_tag_url latest_version) with
  | inl msg => (inl (RequestException msg), f)
  | inr response =>
      match find_asset (default [] (assets response)) with
      | Some a => asset_outcome env a f
      | None =>
          (inl (Exception "No matching asset found for version {latest_version}"), f)
      end
  end.

(** The signal [DownloadThread.run] emits last. *)
Definition last_signal (r : exn + bool) : signal :=
  match r with
  | inr success => finished_signal success
  | inl e => error_signal (str_exn e)
  end.

Lemma download_asset_outcome (env : environment) (latest_version : string)
    (start_time : option float) (a : asset) (w : world) :
  exists w',
    download_asset env latest_version (update_progress env start_time) a w =
    (fst (asset_outcome env a (fs w)), w') /\
    fs w' = snd (asset_outcome env a (fs w)) /\
    calmly w w'.
Proof.
  destruct (install_paths_distinct (sys_executable env)) as (Hbs & Hns & Hnb).
  unfold download_asset, asset_outcome. cbv zeta.
  set (script_path := sys_executable env) in *.
  set (new := script_path +:+ ".new") in *.
  set (total := default 0%Z (size a)).
  destruct (total =? 0)%Z.
  { exists w. split; [reflexivity|]. split; [reflexivity|apply calmly_refl]. }
  destruct (update_progress_calm env start_time 0 total w) as (w2 & E2 & F2 & X2).
  set (w3 := snd (open_wb new w2)).
  set (w4 := add_events w3 [Requests_get (browser_download_url a) (auth_headers env) true]).
  assert (F4 : fs w4 = <[new := []]> (fs w)).
  { subst w4 w3. cbn. rewrite F2. reflexivity. }
  assert (X4 : calmly w w4).
  { apply (calmly_trans w w2 w4 X2).
    eexists. split; [cbn; now rewrite <- app_assoc|]. repeat constructor. }
  erewrite bind_ok by exact E2. erewrite bind_ok by reflexivity. fold w3.
  destruct (download env (browser_download_url a)) as [msg|s] eqn:Hdl.
  { exists w4. split; [|split; [exact F4|exact X4]].
    erewrite bind_raise; [reflexivity|].
    unfold requests_get_stream, bind. rewrite emit_event_run, Hdl. reflexivity. }
  erewrite bind_ok
    by (unfold requests_get_stream, bind; rewrite emit_event_run, Hdl; reflexivity).
  fold w4.
  destruct (write_chunks_calm env start_time new total (chunks s) 0 w4 [])
    as (w5 & n & E5 & F5 & X5).
  { rewrite F4. apply lookup_insert_eq. }
  rewrite F4, insert_insert_eq in F5. cbn [app] in F5.
  erewrite bind_ok by exact E5.
  pose proof (calmly_trans _ _ _ X4 X5) as X.
  destruct (broken s) as [msg|].
  { exists w5. cbn [fst snd]. split; [reflexivity|]. split; [exact F5|exact X]. }
  destruct (fs w !! script_path) as [R|] eqn:HR.
  - destruct (install_update_calm env w5 script_path R (concat (chunks s)))
      as (w6 & E6 & F6 & X6).
    { rewrite F5. rewrite lookup_insert_ne by exact Hns. exact HR. }
    { rewrite F5. apply lookup_insert_eq. }
    fold new in E6. erewrite bind_ok by exact E6.
    erewrite bind_ok by apply logging_run.
    eexists. split; [reflexivity|]. cbn [fst snd add_events fs]. split.
    + now rewrite F6, F5.
    + apply (calmly_trans _ _ _ X). apply (calmly_trans _ _ _ X6).
      apply calmly_add_events. repeat constructor.
  - destruct (install_update_missing env w5 script_path) as (w6 & E6 & F6 & X6).
    { rewrite F5. rewrite lookup_insert_ne by exact Hns. exact HR. }
    fold new in E6. erewrite bind_raise by exact E6.
    exists w6. cbn [fst snd]. split; [reflexivity|]. split.
    + now rewrite F6, F5.
    + eauto using calmly_trans.
Qed.

(** The two clauses of [download_update] log and raise again. *)
Lemma download_update_handlers (e : exn) (w : world) :
  exists msg,
    handle (A := bool)
      [(is_RequestException,
        fun e => logging ERROR ("Failed to download update: " +:+ str_exn e) ;; raise e);
       (is_Exception,
        fun e => logging ERROR ("An error occurred: " +:+ str_exn e) ;; raise e)] e w =
    (inl e, add_events w [Logging ERROR msg]).
Proof.
  cbn [handle]. destruct (is_RequestException e); eexists; reflexivity.
Qed.

Lemma download_update_outcome (env : environment) (latest_version : string)
    (start_time : option float) (w : world) :
  exists w',
    download_update env latest_version (update_progress env start_time) w =
    (fst (download_outcome env latest_version (fs w)), w') /\
    fs w' = snd (download_outcome env latest_version (fs w)) /\
    calmly w w'.
Proof.
  set (w1 := add_events w
               [Requests_get (Some (release_tag_url latest_version)) (auth_headers env) false]).
  assert (X1 : calmly w w1) by (apply calmly_add_events; repeat constructor).
  assert (B : exists w2,
    bind (requests_get_json env (release_tag_url latest_version))
      (fun response => find_and_download env latest_version
                         (update_progress env start_time) (default [] (assets response))) w =
    (fst (download_outcome env latest_version (fs w)), w2) /\
    fs w2 = snd (download_outcome env latest_version (fs w)) /\ calmly w w2).
  { unfold download_outcome.
    destruct (api env (release_tag_url latest_version)) as [msg|response] eqn:Hapi.
    { exists w1. split; [|split; [reflexivity|exact X1]].
      erewrite bind_raise; [reflexivity|]. now rewrite requests_get_json_run, Hapi. }
    erewrite bind_ok by (rewrite requests_get_json_run, Hapi; reflexivity). fold w1.
    destruct (find_asset (default [] (assets response))) as [a|] eqn:Hfind.
    - rewrite (find_and_download_found _ _ _ _ a Hfind).
      destruct (download_asset_outcome env latest_version start_time a w1)
        as (w2 & E & F & X).
      exists w2. split; [exact E|]. split; [exact F|]. eauto using calmly_trans.
    - rewrite (find_and_download_missing _ _ _ _ _ Hfind).
      eexists. split; [reflexivity|]. split; [reflexivity|].
      apply (calmly_trans _ _ _ X1). apply calmly_add_events. repeat constructor. }
  destruct B as (w2 & E & F & X). unfold download_update.
  destruct (fst (download_outcome env latest_version (fs w))) as [e|b] eqn:R.
  - erewrite try_except_raise by exact E.
    destruct (download_update_handlers e w2) as (msg & H). rewrite H.
    eexists. split; [reflexivity|]. split; [exact F|].
    apply (calmly_trans _ _ _ X). apply calmly_add_events. repeat constructor.
  - erewrite try_except_ok by exact E. eauto.
Qed.

(** [DownloadThread.run] always returns; its last event is the one signal
    that ends it, and the files are those of [download_outcome]. *)
Lemma DownloadThread_run_outcome (env : environment) (latest_version : string)
    (w : world) :
  exists w' evs,
    DownloadThread_run env latest_version w = (inr tt, w') /\
    trace w' = trace w ++ evs ++
      [Emit (last_signal (fst (download_outcome env latest_version (fs w))))] /\
    Forall nonterminal evs /\
    fs w' = snd (download_outcome env latest_version (fs w)).
Proof.
  set (w0 := snd (time env w)).
  destruct (download_update_outcome env latest_version (Some (clock env (ticks w))) w0)
    as (w1 & E & F & (evs & T & C)).
  change (fs w0) with (fs w) in *. change (trace w0) with (trace w) in T.
  exists (add_events w1
            [Emit (last_signal (fst (download_outcome env latest_version (fs w))))]), evs.
  split; [|split; [|split]].
  - unfold DownloadThread_run.
    destruct (fst (download_outcome env latest_version (fs w))) as [e|b].
    + erewrite try_except_raise.
      2: { erewrite bind_ok by reflexivity. fold w0.
           erewrite bind_raise by exact E. reflexivity. }
      reflexivity.
    + apply try_except_ok. erewrite bind_ok by reflexivity. fold w0.
      erewrite bind_ok by exact E. reflexivity.
  - cbn [add_events trace]. rewrite T. now rewrite <- app_assoc.
  - exact C.
  - exact F.
Qed.

(** Three facts about the outcome, whatever the feed answers. *)
Lemma download_outcome_true (env : environment) (latest_version : string)
    (f : gmap string bytes) (success : bool) :
  fst (download_outcome env latest_version f) = inr success -> success = true.
Proof.
  unfold download_outcome, asset_outcome.
  repeat (match goal with
          | |- context [match ?x with _ => _ end] => destruct x
          end; cbn [fst]); congruence.
Qed.

Lemma download_outcome_frame (env : environment) (latest_version : string)
    (f : gmap string bytes) (p : string) :
  p <> sys_executable env -> p <> sys_executable env +:+ ".new" ->
  p <> sys_executable env +:+ ".bak" ->
  snd (download_outcome env latest_version f) !! p = f !! p.
Proof.
  intros H1 H2 H3. unfold download_outcome, asset_outcome.
  repeat (match goal with
          | |- context [match ?x with _ => _ end] => destruct x
          end; cbn [snd]);
    rewrite ?installed_lookup;
    repeat (destruct (decide _); [contradiction|]);
    rewrite ?lookup_delete_ne by congruence;
    rewrite ?lookup_insert_ne by congruence; reflexivity.
Qed.

(** X4. When the request for the release fails, [download_update] logs
    "Failed to download update: ..." and raises the [RequestException]
    again, and [DownloadThread.run] ends with [error_signal] of its
    message: nothing else is requested, and no file is opened. *)
Theorem release_request_failure_is_reported (env : environment)
    (latest_version : string) (progress_callback : Z -> Z -> M unit)
    (w : world) (msg : string) :
  api env (release_tag_url latest_version) = inl msg ->
  let request :=
    Requests_get (Some (release_tag_url latest_version)) (auth_headers env) false in
  download_update env latest_version progress_callback w =
    (inl (RequestException msg),
     add_events w [request; Logging ERROR ("Failed to download update: " +:+ msg)]) /\
  DownloadThread_run env latest_version w =
    (inr tt,
     after_start w
       [request; Logging ERROR ("Failed to download update: " +:+ msg);
        Emit (error_signal msg)]).
Proof.
  intros Hapi request.
  assert (D : forall cb w0,
    download_update env latest_version cb w0 =
    (inl (RequestException msg),
     add_events w0 [request; Logging ERROR ("Failed to download update: " +:+ msg)])).
  { intros cb w0. unfold download_update.
    erewrite try_except_raise.
    2: { erewrite bind_raise; [reflexivity|]. now rewrite requests_get_json_run, Hapi. }
    cbn [handle is_RequestException].
    unfold bind. rewrite logging_run. unfold raise.
    now rewrite !add_events_app. }
  split; [apply D|].
  unfold DownloadThread_run.
  erewrite try_except_raise.
  2: { unfold bind at 1. cbn [time]. erewrite bind_raise by apply D. reflexivity. }
  cbn [handle is_Exception]. rewrite emit_event_run.
  unfold add_events, after_start. cbn. now rewrite <- !app_assoc.
Qed.

(** The theorem with the release feed out of reach. *)
Lemma release_request_failure_witness :
  DownloadThread_run offline "1.3.0" staged_world =
  (inr tt,
   after_start staged_world
     [Requests_get (Some (release_tag_url "1.3.0")) [] false;
      Logging ERROR "Failed to download update: Connection refused";
      Emit (error_signal "Connection refused")]).
Proof.
  exact (proj2 (release_request_failure_is_reported offline "1.3.0"
                  (fun _ _ => ret tt) staged_world "Connection refused" eq_refl)).
Defined.


Definition cut_short : stream :=
  {| chunks := [repeat x2a 100; repeat x2a 100]; broken := Some "Connection reset by peer" |}.


(** X6. The [.new] file is opened before the body is requested: when that
    request fails, [DownloadThread.run] ends with [error_signal] of its
    message and leaves an empty [.new] file (whatever was there before is
    gone); every other file is as it was. *)
Theorem refused_download_leaves_empty_file (env : environment)
    (latest_version : string) (w : world) (response : release_json)
    (a : asset) (msg : string) :
  api env (release_tag_url latest_version) = inr response ->
  find_asset (default [] (assets response)) = Some a ->
  default 0%Z (size a) <> 0%Z ->
  download env (browser_download_url a) = inl msg ->
  exists w' evs,
    DownloadThread_run env latest_version w = (inr tt, w') /\
    trace w' = trace w ++ evs ++ [Emit (error_signal msg)] /\
    Forall nonterminal evs /\
    fs w' !! (sys_executable env +:+ ".new") = Some [] /\
    (forall p, p <> sys_executable env +:+ ".new" -> fs w' !! p = fs w !! p).
Proof.
  intros Hapi Hfind Hsize Hdl.
  destruct (DownloadThread_run_outcome env latest_version w) as (w' & evs & E & T & C & F).
  unfold download_outcome, asset_outcome in T, F.
  rewrite Hapi, Hfind, Hdl in T, F.
  destruct (Z.eqb_spec (default 0%Z (size a)) 0) as [|_]; [contradiction|].
  cbn [fst snd last_signal str_exn] in T, F.
  exists w', evs. split; [exact E|]. split; [exact T|]. split; [exact C|].
  rewrite F. split.
  - apply lookup_insert_eq.
  - intros p Hp. now rewrite lookup_insert_ne by congruence.
Qed.

(** The theorem on a feed that answers for the release and refuses the
    asset, over a disk with a [.new] file left by an earlier run. *)
Definition refusing : environment :=
  {| os := Windows;
     sys_executable := exe;
     GITHUB_TOKEN := None;
     api := fun _ => inr release_1_3_0;
     download := fun _ => inl "403 Client Error: Forbidden";
     clock := fun n => (100 + float_of_int (Z.of_nat n))%float |}.

Lemma refused_download_witness :
  exists w' evs,
    DownloadThread_run refusing "1.3.0" staged_world = (inr tt, w') /\
    trace w' = trace staged_world ++ evs ++ [Emit (error_signal "403 Client Error: Forbidden")] /\
    Forall nonterminal evs /\
    fs w' !! (exe +:+ ".new") = Some [] /\
    (forall p, p <> exe +:+ ".new" -> fs w' !! p = fs staged_world !! p).
Proof.
  exact (refused_download_leaves_empty_file refusing "1.3.0" staged_world
           release_1_3_0 _ _ eq_refl eq_refl ltac:(discriminate) eq_refl).
Defined.

(** X7. [finished_signal(True)] tells that the bytes received were
    installed, and nothing about their number: the size the release
    reports is not compared with them. When [DownloadThread.run] ends
    with [finished_signal(True)], the body arrived without a failure of
    the connection, the bytes received are at the executable path, what
    was there before is the [.bak] file, the [.new] file is gone and every
    other file is as it was. *)
Theorem finished_means_the_body_is_installed (env : environment)
    (latest_version : string) (w : world) (response : release_json)
    (a : asset) (s : stream) :
  api env (release_tag_url latest_version) = inr response ->
  find_asset (default [] (assets response)) = Some a ->
  download env (browser_download_url a) = inr s ->
  exists w' evs final,
    DownloadThread_run env latest_version w = (inr tt, w') /\
    trace w' = trace w ++ evs ++ [Emit final] /\
    Forall nonterminal evs /\
    (final = finished_signal true ->
     broken s = None /\
     fs w' !! sys_executable env = Some (concat (chunks s)) /\
     fs w' !! (sys_executable env +:+ ".bak") = fs w !! sys_executable env /\
     fs w' !! (sys_executable env +:+ ".new") = None /\
     (forall p, p <> sys_executable env -> p <> sys_executable env +:+ ".new" ->
                p <> sys_executable env +:+ ".bak" -> fs w' !! p = fs w !! p)).
Proof.
  intros Hapi Hfind Hdl.
  destruct (install_paths_distinct (sys_executable env)) as (Hbs & Hns & Hnb).
  destruct (DownloadThread_run_outcome env latest_version w) as (w' & evs & E & T & C & F).
  pose proof (download_outcome_frame env latest_version (fs w)) as Frame.
  rewrite <- F in Frame.
  exists w', evs. eexists. split; [exact E|]. split; [exact T|]. split; [exact C|].
  intros Hfinal. split; [|split; [|split; [|split; [|exact Frame]]]];
    revert Hfinal; rewrite ?F; clear F Frame;
    unfold download_outcome, asset_outcome; rewrite Hapi, Hfind, Hdl;
    destruct (default 0%Z (size a) =? 0)%Z; cbn [fst snd last_signal];
    try discriminate;
    destruct (broken s) as [msg|]; cbn [fst snd last_signal]; try discriminate;
    destruct (fs w !! sys_executable env) as [R|]; cbn [fst snd last_signal];
    try discriminate; intros _; rewrite ?installed_lookup.
  - reflexivity.
  - now destruct (decide _).
  - destruct (decide _) as [X|_]; [contradiction|].
    destruct (decide _) as [X|_]; [symmetry in X; contradiction|].
    now destruct (decide _).
  - destruct (decide _) as [X|_]; [contradiction|].
    now destruct (decide _).
Qed.

(** The size the release reports for [SteamKM.exe]. *)
Definition size_reported (response : release_json) : option Z :=
  match find_asset (default [] (assets response)) with
  | Some a => size a
  | None => None
  end.

Definition three_bytes : stream := {| chunks := [[x4e; x45; x57]]; broken := None |}.

(** The theorem on a release that reports 1,000 bytes and sends three:
    the run ends with [finished_signal(True)], and the three bytes are
    the new binary. *)
Lemma finished_short_body_witness :
  size_reported release_1_3_0 = Some 1000%Z /\
  exists w' evs,
    DownloadThread_run (serving release_1_3_0 three_bytes) "1.3.0" staged_world = (inr tt, w') /\
    trace w' = trace staged_world ++ evs ++ [Emit (finished_signal true)] /\
    fs w' !! exe = Some [x4e; x45; x57] /\
    fs w' !! (exe +:+ ".bak") = Some [x4f; x4c; x44] /\
    fs w' !! (exe +:+ ".new") = None.
Proof.
  split; [reflexivity|].
  destruct (finished_means_the_body_is_installed (serving release_1_3_0 three_bytes)
              "1.3.0" staged_world release_1_3_0 _ three_bytes eq_refl eq_refl eq_refl)
    as (w' & evs & final & E & T & _ & H).
  assert (L : List.last (trace w') (Emit (error_signal EmptyString)) =
              Emit (finished_signal true)).
  { replace w' with (snd (DownloadThread_run (serving release_1_3_0 three_bytes)
                            "1.3.0" staged_world)) by (now rewrite E).
    vm_compute. reflexivity. }
  rewrite T, app_assoc, last_last in L. injection L as ->.
  destruct (H eq_refl) as (_ & H1 & H2 & H3 & _).
  exists w', evs. auto.
Defined.

(** X8. Whatever the feed answers and whatever is on the disk,
    [DownloadThread.run] returns and emits exactly one signal that ends
    it, as its last event: [finished_signal(True)] or [error_signal]. It
    never emits [finished_signal(False)]. *)
Theorem worker_ends_with_one_signal (env : environment) (latest_version : string)
    (w : world) :
  exists w' evs final,
    DownloadThread_run env latest_version w = (inr tt, w') /\
    trace w' = trace w ++ evs ++ [Emit final] /\
    Forall nonterminal evs /\
    (final = finished_signal true \/ exists msg, final = error_signal msg).
Proof.
  destruct (DownloadThread_run_outcome env latest_version w) as (w' & evs & E & T & C & _).
  exists w', evs. eexists. split; [exact E|]. split; [exact T|]. split; [exact C|].
  destruct (fst (download_outcome env latest_version (fs w))) as [e|success] eqn:R;
    cbn [last_signal].
  - right. eauto.
  - left. now rewrite (download_outcome_true _ _ _ _ R).
Qed.

(** X9. [DownloadThread.run] changes no file other than the executable,
    its [.new] file and its [.bak] file, on any path through it. *)
Theorem worker_touches_three_paths (env : environment) (latest_version : string)
    (w : world) (p : string) :
  p <> sys_executable env ->
  p <> sys_executable env +:+ ".new" ->
  p <> sys_executable env +:+ ".bak" ->
  fs (snd (DownloadThread_run env latest_version w)) !! p = fs w !! p.
Proof.
  intros H1 H2 H3.
  destruct (DownloadThread_run_outcome env latest_version w) as (w' & evs & E & _ & _ & F).
  rewrite E. cbn [snd]. rewrite F. now apply download_outcome_frame.
Qed.

(** A disk with a file of the user's beside the binary. *)
Definition with_keys : world :=
  {| fs := <["C:\SteamKM\steam_keys.json" := [x7b; x7d]]> staged_disk;
     ticks := 0; trace := [] |}.

(** The theorem on the user's file, through a download that installs and
    through one that is cut short. *)
Lemma worker_touches_three_paths_witness :
  fs (snd (DownloadThread_run thousand_bytes "1.3.0" with_keys))
    !! "C:\SteamKM\steam_keys.json" = Some [x7b; x7d] /\
  fs (snd (DownloadThread_run (serving release_1_3_0 cut_short) "1.3.0" with_keys))
    !! "C:\SteamKM\steam_keys.json" = Some [x7b; x7d].
Proof.
  split.
  - exact (worker_touches_three_paths thousand_bytes "1.3.0" with_keys
             "C:\SteamKM\steam_keys.json"
             ltac:(discriminate) ltac:(discriminate) ltac:(discriminate)).
  - exact (worker_touches_three_paths (serving release_1_3_0 cut_short) "1.3.0" with_keys
             "C:\SteamKM\steam_keys.json"
             ltac:(discriminate) ltac:(discriminate) ltac:(discriminate)).
Defined.

Lemma download_outcome_all_or_nothing (env : environment) (latest_version : string)
    (f : gmap string bytes) (R : bytes) :
  f !! sys_executable env = Some R ->
  let script_path := sys_executable env in
  let outcome := download_outcome env latest_version f in
  ((exists e, fst outcome = inl e) /\
   snd outcome !! script_path = Some R /\
   snd outcome !! (script_path +:+ ".bak") = f !! (script_path +:+ ".bak")) \/
  (fst outcome = inr true /\
   snd outcome !! (script_path +:+ ".bak") = Some R /\
   is_Some (snd outcome !! script_path) /\
   snd outcome !! (script_path +:+ ".new") = None).
Proof.
  intros HR script_path outcome. subst outcome script_path.
  destruct (install_paths_distinct (sys_executable env)) as (Hbs & Hns & Hnb).
  unfold download_outcome, asset_outcome. rewrite HR.
  repeat (match goal with
          | |- context [match ?x with _ => _ end] => destruct x
          end; cbn [fst snd]);
    try (left; split; [eauto|];
         rewrite ?lookup_insert_ne by congruence; split; [exact HR|reflexivity]).
  right. rewrite !installed_lookup. split; [reflexivity|]. repeat split.
  - destruct (decide _) as [X|_]; [contradiction|].
    destruct (decide _) as [X|_]; [symmetry in X; contradiction|].
    now destruct (decide _).
  - destruct (decide _); [eauto|contradiction].
  - destruct (decide _) as [X|_]; [contradiction|].
    now destruct (decide _).
Qed.

(** X10. The running binary is never lost. With [R] at the executable
    path before [DownloadThread.run], [R] is afterwards at the executable
    path or at the [.bak] path, however the run ends; after
    [finished_signal(True)] it is the [.bak] file, the executable path
    holds a file and no [.new] file is left. *)
Theorem running_binary_is_never_lost (env : environment) (latest_version : string)
    (w : world) (R : bytes) :
  fs w !! sys_executable env = Some R ->
  let script_path := sys_executable env in
  exists w' evs final,
    DownloadThread_run env latest_version w = (inr tt, w') /\
    trace w' = trace w ++ evs ++ [Emit final] /\
    (fs w' !! script_path = Some R \/ fs w' !! (script_path +:+ ".bak") = Some R) /\
    (final = finished_signal true ->
     fs w' !! (script_path +:+ ".bak") = Some R /\
     is_Some (fs w' !! script_path) /\
     fs w' !! (script_path +:+ ".new") = None).
Proof.
  intros HR script_path.
  destruct (DownloadThread_run_outcome env latest_version w) as (w' & evs & E & T & _ & F).
  exists w', evs. eexists. split; [exact E|]. split; [exact T|]. rewrite F.
  destruct (download_outcome_all_or_nothing env latest_version (fs w) R HR)
    as [((e & He) & H1 & H2) | (Hr & H1 & H2 & H3)].
  - split; [now left|]. rewrite He. cbn [last_signal]. discriminate.
  - split; [now right|]. intros _. auto.
Qed.

(** The theorem on a download that is cut short, and on one that
    installs. *)
Lemma running_binary_witness :
  (exists w' evs final,
     DownloadThread_run (serving release_1_3_0 cut_short) "1.3.0" staged_world = (inr tt, w') /\
     trace w' = trace staged_world ++ evs ++ [Emit final] /\
     (fs w' !! exe = Some [x4f; x4c; x44] \/
      fs w' !! (exe +:+ ".bak") = Some [x4f; x4c; x44]) /\
     (final = finished_signal true ->
      fs w' !! (exe +:+ ".bak") = Some [x4f; x4c; x44] /\
      is_Some (fs w' !! exe) /\
      fs w' !! (exe +:+ ".new") = None)) /\
  (exists w' evs final,
     DownloadThread_run thousand_bytes "1.3.0" staged_world = (inr tt, w') /\
     trace w' = trace staged_world ++ evs ++ [Emit final] /\
     (fs w' !! exe = Some [x4f; x4c; x44] \/
      fs w' !! (exe +:+ ".bak") = Some [x4f; x4c; x44]) /\
     (final = finished_signal true ->
      fs w' !! (exe +:+ ".bak") = Some [x4f; x4c; x44] /\
      is_Some (fs w' !! exe) /\
      fs w' !! (exe +:+ ".new") = None)).
Proof.
  split.
  - exact (running_binary_is_never_lost (serving release_1_3_0 cut_short) "1.3.0"
             staged_world [x4f; x4c; x44] eq_refl).
  - exact (running_binary_is_never_lost thousand_bytes "1.3.0"
             staged_world [x4f; x4c; x44] eq_refl).
Defined.

(** ** One update after another *)







(** ** What is reported is what is on the disk *)

Lemma total_length_concat (cs : list bytes) :
  total_length cs = Z.of_nat (length (concat cs)).
Proof.
  unfold total_length. induction cs as [|chunk cs IH]; [reflexivity|].
  cbn [fold_right concat]. rewrite length_app, IH. lia.
Qed.

(** X15. Once the body of the asset is being received, the progress
    signals of [DownloadThread.run] count the bytes on the disk: the
    count of the last signal is the length of the file written, which is
    the [.new] file when the download or the install failed and the
    executable when the update was installed. This holds for a body that
    is cut short as well as for a whole one, and for a body shorter or
    longer than the size the release reports, as long as that size and
    the number of bytes received are below 2^31: they then fit the [int]
    of the signal and convert to a float. *)
Theorem progress_counts_the_bytes_written (env : environment)
    (latest_version : string) (w : world) (response : release_json)
    (a : asset) (total : Z) (s : stream) :
  api env (release_tag_url latest_version) = inr response ->
  find_asset (default [] (assets response)) = Some a ->
  size a = Some total -> total <> 0%Z ->
  (- 2 ^ 31 <= total < 2 ^ 31)%Z ->
  download env (browser_download_url a) = inr s ->
  (total_length (chunks s) < 2 ^ 31)%Z ->
  let w' := snd (DownloadThread_run env latest_version w) in
  exists (counts : list Z) (written : bytes),
    progress_notifications (trace w') =
    progress_notifications (trace w) ++ map (fun d => (d, total)) counts /\
    List.last counts 0%Z = Z.of_nat (length written) /\
    written = concat (chunks s) /\
    (fs w' !! (sys_executable env +:+ ".new") = Some written \/
     (broken s = None /\ fs w' !! sys_executable env = Some written)).
Proof.
  intros Hapi Hfind Hsize Hnz _ Hdl _ w'.
  destruct (install_paths_distinct (sys_executable env)) as (Hbs & Hns & Hnb).
  exists (0%Z :: running_totals 0 (chunks s)), (concat (chunks s)).
  split; [|split; [|split]].
  - apply (DownloadThread_run_adds env latest_version w response a total s); assumption.
  - rewrite running_totals_last, <- total_length_concat. lia.
  - reflexivity.
  - destruct (DownloadThread_run_outcome env latest_version w) as (w1 & evs & E & _ & _ & F).
    subst w'. rewrite E. cbn [snd]. rewrite F.
    unfold download_outcome, asset_outcome. rewrite Hapi, Hfind, Hsize, Hdl.
    cbn [default from_option id].
    destruct (Z.eqb_spec total 0) as [|_]; [contradiction|].
    destruct (broken s) as [msg|]; cbn [snd].
    + left. apply lookup_insert_eq.
    + destruct (fs w !! sys_executable env) as [R|]; cbn [snd].
      * right. split; [reflexivity|]. rewrite installed_lookup.
        now destruct (decide _).
      * left. rewrite lookup_delete_ne by (intros X; symmetry in X; contradiction).
        apply lookup_insert_eq.
Qed.

(** The theorem on the body cut after 200 of its 1,000 bytes. *)
Lemma progress_counts_witness :
  let w' := snd (DownloadThread_run (serving release_1_3_0 cut_short) "1.3.0" staged_world) in
  exists (counts : list Z) (written : bytes),
    progress_notifications (trace w') =
    progress_notifications (trace staged_world) ++ map (fun d => (d, 1000%Z)) counts /\
    List.last counts 0%Z = Z.of_nat (length written) /\
    written = repeat x2a 200 /\
    (fs w' !! (exe +:+ ".new") = Some written \/
     (broken cut_short = None /\ fs w' !! exe = Some written)).
Proof.
  exact (progress_counts_the_bytes_written (serving release_1_3_0 cut_short) "1.3.0"
           staged_world release_1_3_0 _ 1000%Z cut_short
           eq_refl eq_refl eq_refl ltac:(discriminate) ltac:(lia) eq_refl
           ltac:(vm_compute; reflexivity)).
Defined.

(** ** The estimated time is never negative *)












(** X12. The first progress signal of a download (no byte yet) and the
    signal of its last byte (received = total) carry the estimated time
    0, whatever the clock reads. *)
Theorem estimated_time_is_zero_at_both_ends (env : environment) (w : world)
    (start_time : option float) (total : Z) :
  (exists w',
     update_progress env start_time 0 total w = (inr tt, w') /\
     trace w' = trace w ++ [Emit (progress_signal 0 total 0)]) /\
  (exists w',
     update_progress env start_time total total w = (inr tt, w') /\
     trace w' = trace w ++ [Emit (progress_signal total total 0)]).
Proof.
  assert (First : forall elapsed,
    estimated_time 0 total (download_speed 0 elapsed) = 0%float).
  { intros elapsed. unfold download_speed. cbn [Z.ltb Z.compare].
    rewrite andb_false_r. reflexivity. }
  assert (Last : forall speed, estimated_time total total speed = 0%float).
  { intros speed. unfold estimated_time. rewrite Z.sub_diag.
    destruct (PrimFloat.ltb 0 speed) eqn:Hs; [|reflexivity].
    exact (float_zero_div speed Hs). }
  unfold update_progress, elapsed_time.
  split; (destruct start_time as [s|]; [destruct (float_truthy s)|]);
    eexists; (split; [reflexivity|]); cbn [bind ret emit_event trace snd];
    unfold bind, time, ret, emit_event; cbn [trace];
    rewrite ?First, ?Last; reflexivity.
Qed.

(** ** The version list of the dialog *)

(** [old in s]: the text [old] occurs in [s]. *)
Fixpoint contains (old s : string) : bool :=
  startswith old s ||
  match s with
  | String _ s' => contains old s'
  | EmptyString => false
  end.

(** A tag as the list shows it back: no whitespace at either end, and
    no ["(latest)"] inside. *)
Definition clean_tag (tag : string) : Prop :=
  str_strip tag = tag /\ contains "(latest)" tag = false.

Fixpoint has_char (c : ascii) (s : string) : bool :=
  match s with
  | EmptyString => false
  | String a s' => Ascii.eqb a c || has_char c s'
  end.

(** A word that starts [s ++ c ++ t] starts [s] or has the character
    [c]. *)
Lemma startswith_app (p s t : string) (c : ascii) :
  startswith p (s +:+ String c t) = true ->
  startswith p s = true \/ has_char c p = true.
Proof.
  revert s. induction p as [|a p IH]; intros s H; [now left|].
  destruct s as [|b s]; cbn [String.append startswith has_char] in *.
  - apply andb_prop in H as [H _]. right. now rewrite H.
  - apply andb_prop in H as [Hab H]. rewrite Hab. cbn [andb].
    destruct (IH s H) as [L|R]; [now left|right].
    rewrite R. apply orb_true_r.
Qed.

Lemma replace_scan_absent (old new s : string) :
  contains old s = false -> replace_scan old new 0 s = s.
Proof.
  induction s as [|c s IH]; [reflexivity|]. cbn [contains replace_scan].
  intros H. apply orb_false_elim in H as [H1 H2]. rewrite H1. now rewrite IH.
Qed.

(** The mark that [fetch_releases] appends goes, the space before it
    stays. *)
Lemma replace_scan_latest (v : string) :
  contains "(latest)" v = false ->
  replace_scan "(latest)" EmptyString 0 (v +:+ " (latest)") = v +:+ " ".
Proof.
  induction v as [|c v IH]; [reflexivity|]. intros H.
  change (String c v +:+ " (latest)") with (String c (v +:+ " (latest)")).
  change (contains "(latest)" (String c v))
    with (startswith "(latest)" (String c v) || contains "(latest)" v) in H.
  apply orb_false_elim in H as [H1 H2].
  cbn [replace_scan].
  destruct (startswith "(latest)" (String c (v +:+ " (latest)"))) eqn:E.
  - exfalso.
    destruct (startswith_app "(latest)" (String c v) "(latest)" " " E) as [L|R];
      [congruence|discriminate R].
  - now rewrite (IH H2).
Qed.

Lemma str_rstrip_app_space (s : string) : str_rstrip (s +:+ " ") = str_rstrip s.
Proof.
  induction s as [|c s IH]; [reflexivity|].
  change (String c s +:+ " ") with (String c (s +:+ " ")).
  cbn [str_rstrip]. now rewrite IH.
Qed.

Lemma str_strip_app_space (s : string) : str_strip (s +:+ " ") = str_strip s.
Proof.
  unfold str_strip. induction s as [|c s IH]; [reflexivity|].
  change (String c s +:+ " ") with (String c (s +:+ " ")).
  cbn [str_lstrip]. destruct (is_space c); [exact IH|].
  exact (str_rstrip_app_space (String c s)).
Qed.

Lemma selected_version_clean (tag : string) :
  clean_tag tag ->
  selected_version tag = tag /\ selected_version (tag +:+ " (latest)") = tag.
Proof.
  intros [Hs Hc]. unfold selected_version, str_replace. split.
  - now rewrite replace_scan_absent.
  - rewrite replace_scan_latest by exact Hc. now rewrite str_strip_app_space.
Qed.

Lemma itemText_version_items (versions : list string) (index : nat) (tag : string) :
  nth_error versions index = Some tag ->
  itemText (version_items versions) (Z.of_nat index) = tag \/
  itemText (version_items versions) (Z.of_nat index) = tag +:+ " (latest)".
Proof.
  intros H. unfold itemText.
  destruct (Z.ltb_spec (Z.of_nat index) 0) as [|_]; [lia|]. rewrite Nat2Z.id.
  destruct versions as [|first rest]; [now destruct index|].
  unfold version_items.
  set (f := fun version : string =>
              if String.eqb version first then version +:+ " (latest)" else version).
  rewrite (nth_indep _ EmptyString (f EmptyString)).
  2: { rewrite length_map. apply nth_error_Some. congruence. }
  rewrite map_nth. rewrite (nth_error_nth _ _ _ H).
  unfold f. destruct (String.eqb tag first); auto.
Qed.

(** X13. Every release listed can be picked back: for a tag without
    whitespace at its ends and without ["(latest)"] inside, the text that
    [on_version_selected] and [download_update] read from its item is the
    tag itself, with or without the mark of the first item, so the
    Download button is disabled exactly on the items of the running
    version. *)
Theorem listed_version_is_selected_back (versions : list string)
    (current_version : string) (index : nat) (tag : string) :
  nth_error versions index = Some tag ->
  clean_tag tag ->
  selected_version (itemText (version_items versions) (Z.of_nat index)) = tag /\
  on_version_selected (version_items versions) current_version (Z.of_nat index) =
  negb (String.eqb tag current_version).
Proof.
  intros H Hc.
  assert (E : selected_version (itemText (version_items versions) (Z.of_nat index)) = tag).
  { destruct (selected_version_clean tag Hc) as [E1 E2].
    destruct (itemText_version_items versions index tag H) as [-> | ->]; assumption. }
  split; [exact E|]. unfold on_version_selected. now rewrite E.
Qed.

(** The theorem on three releases, read by the build ["1.2.0"]: the first
    item is marked, and the item of the running build disables the
    button. *)
Lemma listed_version_witness :
  version_items ["1.3.0"; "1.2.0"; "1.1.0"] = ["1.3.0 (latest)"; "1.2.0"; "1.1.0"] /\
  (selected_version (itemText (version_items ["1.3.0"; "1.2.0"; "1.1.0"]) 0) = "1.3.0" /\
   on_version_selected (version_items ["1.3.0"; "1.2.0"; "1.1.0"]) "1.2.0" 0 = true) /\
  (selected_version (itemText (version_items ["1.3.0"; "1.2.0"; "1.1.0"]) 1) = "1.2.0" /\
   on_version_selected (version_items ["1.3.0"; "1.2.0"; "1.1.0"]) "1.2.0" 1 = false).
Proof.
  split; [reflexivity|]. split.
  - exact (listed_version_is_selected_back ["1.3.0"; "1.2.0"; "1.1.0"] "1.2.0" 0 "1.3.0"
             eq_refl (conj eq_refl eq_refl)).
  - exact (listed_version_is_selected_back ["1.3.0"; "1.2.0"; "1.1.0"] "1.2.0" 1 "1.2.0"
             eq_refl (conj eq_refl eq_refl)).
Defined.
